(** * VideoPlayer: the player state mirror and its command surface

    A shallow embedding of [src/Components/VideoPlayer.tsx]: the helpers
    [clamp] and [formatTime], the listeners installed by the component's
    effect, and the five commands of [PlayerCommands]. *)

From Stdlib Require Import ZArith QArith Qcanon Qround Qpower Lqa Lia.
From Stdlib Require Import Bool List String Ascii DecimalString.
From Stdlib Require DecimalPos DecimalN.
Import ListNotations.

Local Open Scope string_scope.

(** ** JavaScript numbers

    A TypeScript [number] is modelled as an extended rational: the three
    non-finite values of a binary64 and, for the finite ones, an exact
    rational in canonical form ([Qc], so that equal values are equal terms).
    The binary64 values are among them.  The operations the component
    applies to numbers ([Math.max], [Math.min], [<], [>],
    [Number.isFinite], truthiness, [Math.floor], [%]) are exact on binary64
    values; the one that rounds, [/], rounds here as it does there.  The
    sign of zero is not represented: none of the modelled code can observe
    it. *)

Inductive number : Type :=
| NaN
| NegInfinity
| Infinity
| Fin (q : Qc).

Definition num (z : Z) : number := Fin (Q2Qc (inject_Z z)).
Definition ratio (n : Z) (d : positive) : number := Fin (Q2Qc (n # d)).

Definition isNaN (n : number) : bool :=
  match n with NaN => true | _ => false end.

(** [Number.isFinite] *)
Definition Number_isFinite (n : number) : bool :=
  match n with Fin _ => true | _ => false end.

Definition Qc_ltb (p q : Qc) : bool :=
  match (p ?= q)%Qc with Lt => true | _ => false end.

Definition Qc_eqb (p q : Qc) : bool :=
  match (p ?= q)%Qc with Eq => true | _ => false end.

(** The relational operator [<]: false as soon as an operand is [NaN]. *)
Definition lt (a b : number) : bool :=
  match a, b with
  | NaN, _ | _, NaN => false
  | _, NegInfinity => false
  | NegInfinity, _ => true
  | Infinity, _ => false
  | Fin _, Infinity => true
  | Fin p, Fin q => Qc_ltb p q
  end.

(** [a > b] is [b < a]. *)
Definition gt (a b : number) : bool := lt b a.

(** [a <= b] in the sense of JavaScript: neither operand is [NaN] and
    [b < a] is false. *)
Definition le (a b : number) : bool :=
  negb (isNaN a) && negb (isNaN b) && negb (lt b a).

(** [Math.max] and [Math.min] on two arguments: [NaN] if either is [NaN],
    otherwise the running extremum is replaced by the second argument when
    it is strictly beyond the first. *)
Definition Math_max (a b : number) : number :=
  if isNaN a || isNaN b then NaN else if lt a b then b else a.

Definition Math_min (a b : number) : number :=
  if isNaN a || isNaN b then NaN else if lt b a then b else a.

(** Truthiness of a number: [0] and [NaN] are falsy. *)
Definition truthy (n : number) : bool :=
  match n with
  | NaN => false
  | Fin q => negb (Qc_eqb q 0)
  | _ => true
  end.

(** [a || b] on numbers. *)
Definition or_else (a b : number) : number := if truthy a then a else b.

(** [function clamp(n, min, max)] *)
Definition clamp (n min max : number) : number :=
  Math_min (Math_max n min) max.


(** ** Arithmetic used by [formatTime] *)

(** [Math.floor] *)
Definition Math_floor (n : number) : number :=
  match n with
  | Fin q => num (Qfloor q)
  | _ => n
  end.

Definition negative (q : Qc) : bool := Qc_ltb q 0.

(** *** Rounding to binary64

    Round to nearest, ties to even, with 53 significant bits, the gradual
    underflow below [2^-1022] and the overflow to infinity from [2^1024]
    on. *)

Definition pow2 (e : Z) : Q := Qpower (2 # 1) e.

(** For [a > 0], the exponent [k] with [2^k <= a < 2^(k+1)]: the
    difference of the bit lengths of numerator and denominator, or one
    less. *)
Definition floor_log2 (a : Q) : Z :=
  let k := (Z.log2 (Qnum a) - Z.log2 (Zpos (Qden a)))%Z in
  if Qle_bool (pow2 k) a then k else (k - 1)%Z.

(** The nearest integer, the even one of two that are equally near. *)
Definition round_half_even (x : Q) : Z :=
  let f := Qfloor x in
  match (x - inject_Z f ?= 1 # 2)%Q with
  | Lt => f
  | Gt => (f + 1)%Z
  | Eq => if Z.even f then f else (f + 1)%Z
  end.

(** The binary64 value nearest to [a > 0], or [None] when it overflows:
    [a] is written as a multiple of the unit in the last place [2^e] and
    the multiplier is rounded. *)
Definition round_binary64 (a : Q) : option Q :=
  let e := Z.max (floor_log2 a - 52) (-1074) in
  let r := (inject_Z (round_half_even (a / pow2 e)) * pow2 e)%Q in
  if Qle_bool (pow2 1024) r then None else Some r.

Definition binary64 (q : Q) : number :=
  match (q ?= 0)%Q with
  | Eq => num 0
  | Gt =>
      match round_binary64 q with
      | Some r => Fin (Q2Qc r)
      | None => Infinity
      end
  | Lt =>
      match round_binary64 (- q) with
      | Some r => Fin (Q2Qc (- r))
      | None => NegInfinity
      end
  end.

(** The operator [/]: the quotient rounded to binary64.  A zero divisor is
    the positive zero. *)
Definition div (a b : number) : number :=
  match a, b with
  | NaN, _ | _, NaN => NaN
  | Fin p, Fin q =>
      if Qc_eqb q 0 then
        if Qc_eqb p 0 then NaN
        else if negative p then NegInfinity else Infinity
      else binary64 (p / q)%Qc
  | Fin _, _ => num 0
  | Infinity, Fin q => if negative q then NegInfinity else Infinity
  | NegInfinity, Fin q => if negative q then Infinity else NegInfinity
  | _, _ => NaN
  end.

(** Rounding towards zero, as the quotient of [%] is. *)
Definition truncate (q : Qc) : Z :=
  if negative q then Qceiling q else Qfloor q.

(** The operator [%]: the remainder takes the sign of the dividend. *)
Definition rem (a b : number) : number :=
  match a, b with
  | NaN, _ | _, NaN => NaN
  | Fin p, Fin q =>
      if Qc_eqb q 0 then NaN
      else Fin (p - q * Q2Qc (inject_Z (truncate (p / q))))%Qc
  | Fin _, _ => a
  | _, _ => NaN
  end.

(** ** Strings *)

(** The bound of the integers that binary64 represents without gaps,
    [2^53]. *)
Definition safe_bound : Z := 9007199254740992.

Definition integral (q : Qc) : bool := Qeq_bool q (inject_Z (Qfloor q)).

(** [Number::toString] in radix 10, where it is a matter of writing
    digits: [NaN], the infinities, and the integers below [2^53] in
    absolute value, which are printed in full.  For the other numbers
    ECMAScript prints the shortest decimal that reads back as the same
    binary64, with an exponent from [1e21] on; these are outside the model
    and have no string here. *)
Definition ToString (n : number) : option string :=
  match n with
  | NaN => Some "NaN"
  | Infinity => Some "Infinity"
  | NegInfinity => Some "-Infinity"
  | Fin q =>
      if integral q && (Z.abs (Qfloor q) <? safe_bound)%Z
      then Some (NilZero.string_of_int (Z.to_int (Qfloor q)))
      else None
  end.

(** The first [n] characters of [cur] followed by [pad] repeated. *)
Fixpoint filler (n : nat) (cur pad : string) : string :=
  match n with
  | O => ""
  | S k =>
      match cur with
      | String c rest => String c (filler k rest pad)
      | EmptyString =>
          match pad with
          | String c rest => String c (filler k rest pad)
          | EmptyString => ""
          end
      end
  end.

(** [String.prototype.padStart(targetLength, padString)] *)
Definition padStart (s : string) (targetLength : nat) (padString : string)
  : string :=
  if Nat.leb targetLength (String.length s) then s
  else filler (targetLength - String.length s) padString padString ++ s.

(** [function formatTime(seconds)].  The result is [None] where one of
    the two numbers to print is outside the model of [ToString]. *)
Definition formatTime (seconds : number) : option string :=
  if negb (Number_isFinite seconds) || lt seconds (num 0) then Some "0:00"
  else
    let s := Math_floor seconds in
    let m := Math_floor (div s (num 60)) in
    let r := rem s (num 60) in
    match ToString m, ToString r with
    | Some minutes, Some seconds_left =>
        Some (minutes ++ ":" ++ padStart seconds_left 2 "0")
    | _, _ => None
    end.

(** ** The media element

    The [HTMLVideoElement] as the component sees it: the attributes it
    reads and writes, and the listeners registered on it.  The two numeric
    attributes the component writes are declared [double]: assigning a
    number that is not finite throws a [TypeError] and stores nothing, and
    [volume] moreover refuses a value outside [0, 1] with an
    [IndexSizeError]. *)

Inductive exn : Type :=
| DOMException (name : string)
| TypeError.

Inductive EventType : Type :=
| loadedmetadata | timeupdate | play | pause | volumechange.

(** The five closures created by the effect. *)
Inductive Listener : Type :=
| onLoadedMetadata | onTimeUpdate | onPlay | onPause | onVolume.

Definition EventType_eqb (a b : EventType) : bool :=
  match a, b with
  | loadedmetadata, loadedmetadata | timeupdate, timeupdate
  | play, play | pause, pause | volumechange, volumechange => true
  | _, _ => false
  end.

Definition Listener_eqb (a b : Listener) : bool :=
  match a, b with
  | onLoadedMetadata, onLoadedMetadata | onTimeUpdate, onTimeUpdate
  | onPlay, onPlay | onPause, onPause | onVolume, onVolume => true
  | _, _ => false
  end.

Definition same_listener (a b : EventType * Listener) : bool :=
  EventType_eqb (fst a) (fst b) && Listener_eqb (snd a) (snd b).

Module Video.
Record t : Type := mk {
  paused : bool;
  currentTime : number;
  duration : number;
  muted : bool;
  volume : number;
  listeners : list (EventType * Listener)
}.

Definition set_paused (b : bool) (v : t) : t :=
  mk b (currentTime v) (duration v) (muted v) (volume v) (listeners v).
Definition set_currentTime (n : number) (v : t) : t :=
  mk (paused v) n (duration v) (muted v) (volume v) (listeners v).
Definition set_duration (n : number) (v : t) : t :=
  mk (paused v) (currentTime v) n (muted v) (volume v) (listeners v).
Definition set_muted (b : bool) (v : t) : t :=
  mk (paused v) (currentTime v) (duration v) b (volume v) (listeners v).
Definition set_volume (n : number) (v : t) : t :=
  mk (paused v) (currentTime v) (duration v) (muted v) n (listeners v).
Definition set_listeners (l : list (EventType * Listener)) (v : t) : t :=
  mk (paused v) (currentTime v) (duration v) (muted v) (volume v) l.

(** [addEventListener]: a listener already registered for the type is not
    registered twice. *)
Definition addEventListener (ty : EventType) (cb : Listener) (v : t) : t :=
  if existsb (same_listener (ty, cb)) (listeners v) then v
  else set_listeners (listeners v ++ [(ty, cb)]) v.

Definition removeEventListener (ty : EventType) (cb : Listener) (v : t)
  : t :=
  set_listeners
    (filter (fun l => negb (same_listener (ty, cb) l)) (listeners v)) v.

(** [v.currentTime = n] *)
Definition assign_currentTime (n : number) (v : t) : t + exn :=
  if Number_isFinite n then inl (set_currentTime n v) else inr TypeError.

(** [v.volume = n] *)
Definition assign_volume (n : number) (v : t) : t + exn :=
  if Number_isFinite n then
    if lt n (num 0) || lt (num 1) n
    then inr (DOMException "IndexSizeError")
    else inl (set_volume n v)
  else inr TypeError.

(** A new element: nothing loaded, paused, full volume. *)
Definition fresh : t := mk true (num 0) NaN false (num 1) [].
End Video.

(** ** The component's state *)

(** [type PlayerState] *)
Record PlayerState : Type := mkPlayerState {
  playing : bool;
  current : number;
  duration : number;
  muted : bool;
  volume : number
}.

(** The argument of [useState]. *)
Definition initialState : PlayerState :=
  mkPlayerState false (num 0) (num 0) false (num 1).

(** What the platform answers to a request that returns a promise. *)
Inductive promise : Type := Resolved | Rejected (e : exn).

Record Platform : Type := mkPlatform {
  play_promise : promise;
  requestFullscreen_promise : promise;
  exitFullscreen_promise : promise
}.

(** The methods called on the element and on the document. *)
Inductive Call : Type :=
| CallPlay | CallPause | CallRequestFullscreen | CallExitFullscreen.

(** Everything a command or a listener can read or write.  [video] is the
    one [<video>] node; [videoRef] tells whether [videoRef.current] is that
    node or [null]; [cleanup] tells whether the effect has returned its
    cleanup function and it has not run yet. *)
Record World : Type := mkWorld {
  video : Video.t;
  videoRef : bool;
  state : PlayerState;
  cleanup : bool;
  fullscreenElement : bool;
  console : list (string * exn);
  calls : list Call
}.

Definition set_video (v : Video.t) (w : World) : World :=
  mkWorld v (videoRef w) (state w) (cleanup w) (fullscreenElement w)
    (console w) (calls w).
Definition set_videoRef (b : bool) (w : World) : World :=
  mkWorld (video w) b (state w) (cleanup w) (fullscreenElement w)
    (console w) (calls w).
Definition set_state (s : PlayerState) (w : World) : World :=
  mkWorld (video w) (videoRef w) s (cleanup w) (fullscreenElement w)
    (console w) (calls w).
Definition set_cleanup (b : bool) (w : World) : World :=
  mkWorld (video w) (videoRef w) (state w) b (fullscreenElement w)
    (console w) (calls w).
Definition set_fullscreenElement (b : bool) (w : World) : World :=
  mkWorld (video w) (videoRef w) (state w) (cleanup w) b
    (console w) (calls w).
Definition log_error (msg : string) (e : exn) (w : World) : World :=
  mkWorld (video w) (videoRef w) (state w) (cleanup w) (fullscreenElement w)
    (console w ++ [(msg, e)]) (calls w).
Definition log_call (c : Call) (w : World) : World :=
  mkWorld (video w) (videoRef w) (state w) (cleanup w) (fullscreenElement w)
    (console w) (calls w ++ [c]).

(** [videoRef.current] *)
Definition videoRef_current (w : World) : option Video.t :=
  if videoRef w then Some (video w) else None.

(** Before the component is mounted. *)
Definition initialWorld : World :=
  mkWorld Video.fresh false initialState false false [] [].

(** ** The playback state mirror

    [setState] is called with updater functions only; each one is applied
    to the latest state, and reads the element when it is applied. *)

Definition setState (f : PlayerState -> PlayerState) (w : World) : World :=
  set_state (f (state w)) w.

(** The body of each listener, for the element [v] captured by the effect. *)
Definition updater (l : Listener) (v : Video.t) (s : PlayerState)
  : PlayerState :=
  match l with
  | onLoadedMetadata =>
      mkPlayerState (playing s) (current s)
        (or_else (Video.duration v) (num 0)) (muted s) (volume s)
  | onTimeUpdate =>
      mkPlayerState (playing s) (or_else (Video.currentTime v) (num 0))
        (duration s) (muted s) (volume s)
  | onPlay =>
      mkPlayerState true (current s) (duration s) (muted s) (volume s)
  | onPause =>
      mkPlayerState false (current s) (duration s) (muted s) (volume s)
  | onVolume =>
      mkPlayerState (playing s) (current s) (duration s)
        (Video.muted v) (Video.volume v)
  end.

Definition call_listener (l : Listener) (w : World) : World :=
  setState (updater l (video w)) w.

(** The platform notifying the element of an event: the listeners
    registered for its type run in registration order. *)
Definition dispatchEvent (e : EventType) (w : World) : World :=
  fold_left
    (fun w' l => if EventType_eqb e (fst l) then call_listener (snd l) w'
                 else w')
    (Video.listeners (video w)) w.

Definition on_video (f : Video.t -> Video.t) (w : World) : World :=
  set_video (f (video w)) w.

(** The function passed to [useEffect]; the boolean tells whether it
    returned the cleanup function. *)
Definition effect (w : World) : World * bool :=
  match videoRef_current w with
  | None => (w, false)
  | Some _ =>
      let add ty cb := on_video (Video.addEventListener ty cb) in
      let w := add loadedmetadata onLoadedMetadata w in
      let w := add timeupdate onTimeUpdate w in
      let w := add play onPlay w in
      let w := add pause onPause w in
      let w := add volumechange onVolume w in
      let w := call_listener onLoadedMetadata w in
      let w := call_listener onTimeUpdate w in
      let w := call_listener onVolume w in
      let w :=
        setState (fun s =>
          mkPlayerState (negb (Video.paused (video w))) (current s)
            (duration s) (muted s) (volume s)) w in
      (w, true)
  end.

(** The function the effect returns. *)
Definition effect_cleanup (w : World) : World :=
  let remove ty cb := on_video (Video.removeEventListener ty cb) in
  let w := remove loadedmetadata onLoadedMetadata w in
  let w := remove timeupdate onTimeUpdate w in
  let w := remove play onPlay w in
  let w := remove pause onPause w in
  remove volumechange onVolume w.

(** ** Commands

    A command runs in a world and completes normally or abruptly (a thrown
    exception or, for an [async] function, an [await]ed promise that was
    rejected). *)

Inductive completion (A : Type) : Type :=
| Normal (a : A)
| Abrupt (e : exn).
Arguments Normal {A} a.
Arguments Abrupt {A} e.

Definition Cmd (A : Type) : Type := World -> completion A * World.

Definition ret {A} (a : A) : Cmd A := fun w => (Normal a, w).

Definition bind {A B} (c : Cmd A) (k : A -> Cmd B) : Cmd B :=
  fun w =>
    match c w with
    | (Normal a, w') => k a w'
    | (Abrupt e, w') => (Abrupt e, w')
    end.

Definition throw {A} (e : exn) : Cmd A := fun w => (Abrupt e, w).

(** [try { body } catch (e) { handler e }] *)
Definition try_catch {A} (body : Cmd A) (handler : exn -> Cmd A) : Cmd A :=
  fun w =>
    match body w with
    | (Normal a, w') => (Normal a, w')
    | (Abrupt e, w') => handler e w'
    end.

Definition modify (f : World -> World) : Cmd unit :=
  fun w => (Normal tt, f w).

Definition read {A} (f : World -> A) : Cmd A := fun w => (Normal (f w), w).

(** An assignment to an attribute of the element: the setter either gives
    the element with the attribute written or throws. *)
Definition assign (setter : Video.t -> Video.t + exn) : Cmd unit :=
  fun w =>
    match setter (video w) with
    | inl v => (Normal tt, set_video v w)
    | inr e => (Abrupt e, w)
    end.

Declare Scope cmd_scope.
Delimit Scope cmd_scope with cmd.
Notation "x <- c ;; k" := (bind c (fun x => k))
  (at level 61, c at next level, right associativity) : cmd_scope.
Notation "c ;; k" := (bind c (fun _ => k))
  (at level 61, right associativity) : cmd_scope.
Local Open Scope cmd_scope.

(** [await] of a promise the platform has settled. *)
Definition await (p : promise) : Cmd unit :=
  match p with
  | Resolved => ret tt
  | Rejected e => throw e
  end.

(** [v.play()]: when the platform lets playback start the element leaves
    the paused state; when it refuses, the element is as it was. *)
Definition HTMLMediaElement_play (pf : Platform) : Cmd promise :=
  modify (log_call CallPlay) ;;
  match play_promise pf with
  | Resolved => modify (on_video (Video.set_paused false)) ;; ret Resolved
  | Rejected e => ret (Rejected e)
  end.

(** [v.pause()] *)
Definition HTMLMediaElement_pause : Cmd unit :=
  modify (log_call CallPause) ;;
  modify (on_video (Video.set_paused true)).

(** [v.requestFullscreen()] *)
Definition Element_requestFullscreen (pf : Platform) : Cmd promise :=
  modify (log_call CallRequestFullscreen) ;;
  match requestFullscreen_promise pf with
  | Resolved => modify (set_fullscreenElement true) ;; ret Resolved
  | Rejected e => ret (Rejected e)
  end.

(** [document.exitFullscreen()] *)
Definition Document_exitFullscreen (pf : Platform) : Cmd promise :=
  modify (log_call CallExitFullscreen) ;;
  match exitFullscreen_promise pf with
  | Resolved => modify (set_fullscreenElement false) ;; ret Resolved
  | Rejected e => ret (Rejected e)
  end.

(** [console.error(msg, e)] *)
Definition console_error (msg : string) (e : exn) : Cmd unit :=
  modify (log_error msg e).

(** [const commands: PlayerCommands] *)

Definition togglePlay (pf : Platform) : Cmd unit :=
  v <- read videoRef_current ;;
  match v with
  | None => ret tt
  | Some v =>
      try_catch
        (if Video.paused v
         then (p <- HTMLMediaElement_play pf ;; await p)
         else HTMLMediaElement_pause)
        (fun e => console_error "play() failed:" e)
  end.

Definition seekTo (t : number) : Cmd unit :=
  v <- read videoRef_current ;;
  match v with
  | None => ret tt
  | Some v =>
      let next :=
        clamp t (num 0)
          (if Number_isFinite (Video.duration v) then Video.duration v
           else num 0) in
      assign (Video.assign_currentTime next)
  end.

Definition toggleMute : Cmd unit :=
  v <- read videoRef_current ;;
  match v with
  | None => ret tt
  | Some v => modify (on_video (Video.set_muted (negb (Video.muted v))))
  end.

Definition setVolume (vol : number) : Cmd unit :=
  v <- read videoRef_current ;;
  match v with
  | None => ret tt
  | Some _ =>
      assign (Video.assign_volume (clamp vol (num 0) (num 1))) ;;
      volume_now <- read (fun w => Video.volume (video w)) ;;
      if gt volume_now (num 0)
      then modify (on_video (Video.set_muted false))
      else ret tt
  end.

Definition fullscreen (pf : Platform) : Cmd unit :=
  v <- read videoRef_current ;;
  match v with
  | None => ret tt
  | Some _ =>
      try_catch
        (in_fullscreen <- read fullscreenElement ;;
         if in_fullscreen
         then (p <- Document_exitFullscreen pf ;; await p)
         else (p <- Element_requestFullscreen pf ;; await p))
        (fun e => console_error "fullscreen failed:" e)
  end.

(** ** Runs of the component

    What can happen to a player, one action at a time: React mounting and
    unmounting the component, the user invoking a command, the platform
    delivering a notification, and the platform's own changes of the playback
    attributes. *)

Inductive Action : Type :=
| Mount
| Unmount
| TogglePlay (pf : Platform)
| SeekTo (t : number)
| ToggleMute
| SetVolume (vol : number)
| Fullscreen (pf : Platform)
| Notify (e : EventType)
| Playback (is_paused : bool) (time dur : number).

(** Mounting attaches the ref, then runs the effect. *)
Definition mount (w : World) : World :=
  let (w', has_cleanup) := effect (set_videoRef true w) in
  set_cleanup has_cleanup w'.

(** Unmounting runs the cleanup function, if the effect returned one, and
    detaches the ref. *)
Definition unmount (w : World) : World :=
  let w' := if cleanup w then effect_cleanup w else w in
  set_videoRef false (set_cleanup false w').

Definition perform (a : Action) : Cmd unit :=
  match a with
  | Mount => modify mount
  | Unmount => modify unmount
  | TogglePlay pf => togglePlay pf
  | SeekTo t => seekTo t
  | ToggleMute => toggleMute
  | SetVolume vol => setVolume vol
  | Fullscreen pf => fullscreen pf
  | Notify e => modify (dispatchEvent e)
  | Playback p t d =>
      modify (on_video (fun v =>
        Video.set_paused p (Video.set_currentTime t (Video.set_duration d v))))
  end.

Definition step (w : World) (a : Action) : World := snd (perform a w).

Definition run (w : World) (l : list Action) : World := fold_left step l w.

(** The closed interval test [lo <= n <= hi]. *)
Definition within (lo hi n : number) : bool := le lo n && le n hi.

(** ** What the specification says [formatTime] prints

    Minutes without an upper bound, a colon, and the seconds as two decimal
    digits. *)

Definition digit (z : Z) : ascii := ascii_of_nat (48 + Z.to_nat z).

Definition two_digits (z : Z) : string :=
  String (digit (z / 10)) (String (digit (z mod 10)) "").

Definition minutes_seconds (total : Z) : string :=
  NilZero.string_of_uint (N.to_uint (Z.to_N (total / 60))) ++ ":"
    ++ two_digits (total mod 60).

(** ** Vocabulary of the properties *)

(** The integers [0, ..., n-1]. *)
Fixpoint upto (n : nat) : list Z :=
  match n with
  | O => []
  | S k => upto k ++ [Z.of_nat k]
  end.

(** The argument of a [setVolume] call is not [NaN]. *)
Definition volume_arg_ok (a : Action) : bool :=
  match a with
  | SetVolume vol => negb (isNaN vol)
  | _ => true
  end.

Definition is_mount (a : Action) : bool :=
  match a with Mount => true | _ => false end.

(** The volume of the element and the volume of the snapshot are both in
    the unit interval. *)
Definition volume_ok (w : World) : Prop :=
  within (num 0) (num 1) (Video.volume (video w)) = true
  /\ within (num 0) (num 1) (volume (state w)) = true.

(** The registrations the effect makes. *)
Definition registered : list (EventType * Listener) :=
  [ (loadedmetadata, onLoadedMetadata); (timeupdate, onTimeUpdate);
    (play, onPlay); (pause, onPause); (volumechange, onVolume) ].

(** Only the effect's listeners are on the element, and none of them once
    the cleanup has run. *)
Definition subscription_ok (w : World) : Prop :=
  (forall l, In l (Video.listeners (video w)) -> In l registered)
  /\ (cleanup w = false -> Video.listeners (video w) = []).

(** A platform that refuses to start playback. *)
Definition refusing : Platform :=
  mkPlatform (Rejected (DOMException "NotAllowedError")) Resolved Resolved.

(** A mounted player whose element is muted at half volume, with two
    minutes of media loaded and thirty seconds played. *)
Definition muted_half : World :=
  run initialWorld
    [ Mount; Playback true (num 30) (num 120); Notify loadedmetadata;
      Notify timeupdate; SetVolume (ratio 1 2); ToggleMute;
      Notify volumechange ].

(** The fields of the snapshot that a notification of type [e] must leave
    as they were. *)
Definition untouched_by (e : EventType) (s s' : PlayerState) : Prop :=
  match e with
  | loadedmetadata =>
      playing s' = playing s /\ current s' = current s
      /\ muted s' = muted s /\ volume s' = volume s
  | timeupdate =>
      playing s' = playing s /\ duration s' = duration s
      /\ muted s' = muted s /\ volume s' = volume s
  | play | pause =>
      current s' = current s /\ duration s' = duration s
      /\ muted s' = muted s /\ volume s' = volume s
  | volumechange =>
      playing s' = playing s /\ current s' = current s
      /\ duration s' = duration s
  end.

(** The event type each listener is registered for. *)
Definition event_of (l : Listener) : EventType :=
  match l with
  | onLoadedMetadata => loadedmetadata
  | onTimeUpdate => timeupdate
  | onPlay => play
  | onPause => pause
  | onVolume => volumechange
  end.

(** ** The overlay

    What [ControlsOverlay] and [TimeSlider] compute from the snapshot for
    the two range inputs. *)

(** [const effectiveVolume = state.muted ? 0 : state.volume] *)
Definition effectiveVolume (s : PlayerState) : number :=
  if muted s then num 0 else volume s.

(** [max={duration || 0}] *)
Definition TimeSlider_max (s : PlayerState) : number :=
  or_else (duration s) (num 0).

(** [value={Math.min(current, duration || 0)}] *)
Definition TimeSlider_value (s : PlayerState) : number :=
  Math_min (current s) (or_else (duration s) (num 0)).

(** ** More vocabulary *)

(** The listener the effect registers for each event type. *)
Definition listener_of (e : EventType) : Listener :=
  match e with
  | loadedmetadata => onLoadedMetadata
  | timeupdate => onTimeUpdate
  | play => onPlay
  | pause => onPause
  | volumechange => onVolume
  end.

(** The field(s) of the snapshot [s] that a notification of type [e] has
    just written, against the element [v]. *)
Definition in_sync (e : EventType) (v : Video.t) (s : PlayerState) : Prop :=
  match e with
  | loadedmetadata => duration s = or_else (Video.duration v) (num 0)
  | timeupdate => current s = or_else (Video.currentTime v) (num 0)
  | play => playing s = true
  | pause => playing s = false
  | volumechange => volume s = Video.volume v /\ muted s = Video.muted v
  end.

(** The ref is attached exactly while the cleanup function is pending, and
    the element then carries the effect's five listeners, once each and in
    registration order, and none otherwise. *)
Definition lifecycle_ok (w : World) : Prop :=
  videoRef w = cleanup w
  /\ Video.listeners (video w) = if cleanup w then registered else [].

Definition is_command (a : Action) : bool :=
  match a with
  | TogglePlay _ | SeekTo _ | ToggleMute | SetVolume _ | Fullscreen _ => true
  | _ => false
  end.

Definition is_notification (a : Action) : bool :=
  match a with Notify _ => true | _ => false end.

Definition resolved (p : promise) : bool :=
  match p with Resolved => true | Rejected _ => false end.

(** The platform grants every request the action makes. *)
Definition granted (a : Action) : bool :=
  match a with
  | TogglePlay pf => resolved (play_promise pf)
  | Fullscreen pf =>
      resolved (requestFullscreen_promise pf)
      && resolved (exitFullscreen_promise pf)
  | _ => true
  end.

(** The actions that call a method of the platform. *)
Definition calls_platform (a : Action) : bool :=
  match a with
  | TogglePlay _ | Fullscreen _ => true
  | _ => false
  end.

(** The promise behind the one request [fullscreen] makes in [w]. *)
Definition fullscreen_promise (pf : Platform) (w : World) : promise :=
  if fullscreenElement w then exitFullscreen_promise pf
  else requestFullscreen_promise pf.

Definition fullscreen_call (w : World) : Call :=
  if fullscreenElement w then CallExitFullscreen else CallRequestFullscreen.

(** React's lifecycle: the component is mounted only while it is not
    mounted, and unmounted only while it is.  [mounted] is the state the
    run starts in. *)
Fixpoint alternates (mounted : bool) (acts : list Action) : bool :=
  match acts with
  | [] => true
  | Mount :: rest => negb mounted && alternates true rest
  | Unmount :: rest => mounted && alternates false rest
  | _ :: rest => alternates mounted rest
  end.

(** * Properties *)

(** ** Order and clamping *)

Lemma Qc_ltb_lt (p q : Qc) : Qc_ltb p q = true <-> (p < q)%Q.
Proof.
  unfold Qc_ltb, Qccompare. rewrite Qlt_alt.
  destruct (p ?= q)%Q; split; congruence.
Qed.

Lemma Qc_ltb_irrefl (p : Qc) : Qc_ltb p p = false.
Proof.
  destruct (Qc_ltb p p) eqn:E; [|reflexivity].
  apply Qc_ltb_lt in E. exfalso. exact (Qlt_irrefl _ E).
Qed.

Lemma Qc_ltb_asym (p q : Qc) : Qc_ltb p q = true -> Qc_ltb q p = false.
Proof.
  intros H. apply Qc_ltb_lt in H.
  destruct (Qc_ltb q p) eqn:E; [|reflexivity].
  apply Qc_ltb_lt in E. exfalso. lra.
Qed.

Lemma Qc_ltb_total (p q : Qc) :
  Qc_ltb p q = false -> Qc_ltb q p = false -> p = q.
Proof.
  intros H1 H2. apply Qc_is_canon.
  destruct (Q_dec p q) as [[L | G] | E]; [ | | exact E].
  - apply Qc_ltb_lt in L. congruence.
  - apply Qc_ltb_lt in G. congruence.
Qed.

Lemma lt_irrefl (a : number) : lt a a = false.
Proof. destruct a; simpl; auto using Qc_ltb_irrefl. Qed.

Lemma lt_asym (a b : number) : lt a b = true -> lt b a = false.
Proof. destruct a, b; simpl; auto using Qc_ltb_asym; discriminate. Qed.

Lemma lt_total (a b : number) :
  isNaN a = false -> isNaN b = false ->
  lt a b = false -> lt b a = false -> a = b.
Proof.
  destruct a, b; simpl; try discriminate; auto.
  intros _ _ H1 H2. f_equal. now apply Qc_ltb_total.
Qed.

Lemma le_refl (a : number) : isNaN a = false -> le a a = true.
Proof. intros H. unfold le. now rewrite H, lt_irrefl. Qed.

Lemma Math_max_not_NaN (a b : number) :
  isNaN a = false -> isNaN b = false -> isNaN (Math_max a b) = false.
Proof.
  intros Ha Hb. unfold Math_max. rewrite Ha, Hb. simpl.
  now destruct (lt a b).
Qed.

(** [clamp] propagates [NaN]. *)
Lemma clamp_NaN (lo hi : number) : clamp NaN lo hi = NaN.
Proof. reflexivity. Qed.

(** For an argument that is not [NaN] and bounds in order, [clamp] is the
    saturating function of the glossary. *)
Lemma clamp_cases (n lo hi : number) :
  isNaN n = false -> le lo hi = true ->
  clamp n lo hi =
    if lt n lo then lo else if lt hi n then hi else n.
Proof.
  intros Hn Hle. unfold le in Hle.
  apply andb_true_iff in Hle as [Hle Hlt].
  apply andb_true_iff in Hle as [Hlo Hhi].
  apply negb_true_iff in Hlo, Hhi, Hlt.
  unfold clamp, Math_max. rewrite Hn, Hlo. simpl.
  destruct (lt n lo) eqn:E; unfold Math_min.
  - rewrite Hlo, Hhi, Hlt. reflexivity.
  - rewrite Hn, Hhi. reflexivity.
Qed.

Lemma clamp_within (n lo hi : number) :
  isNaN n = false -> le lo hi = true ->
  within lo hi (clamp n lo hi) = true.
Proof.
  intros Hn Hle. rewrite clamp_cases by assumption.
  pose proof Hle as Hle'. unfold le in Hle'.
  apply andb_true_iff in Hle' as [Hle' Hlt].
  apply andb_true_iff in Hle' as [Hlo Hhi].
  apply negb_true_iff in Hlo, Hhi.
  unfold within.
  destruct (lt n lo) eqn:E1.
  - rewrite le_refl, Hle; auto.
  - destruct (lt hi n) eqn:E2.
    + rewrite Hle, le_refl; auto.
    + unfold le. rewrite Hlo, Hhi, Hn, E1, E2. reflexivity.
Qed.

Lemma le_0_1 : le (num 0) (num 1) = true.
Proof. reflexivity. Qed.

Lemma clamp_unit_positive (v : number) :
  gt v (num 0) = true -> gt (clamp v (num 0) (num 1)) (num 0) = true.
Proof.
  unfold gt. intros H.
  assert (Hn : isNaN v = false) by (destruct v; simpl in *; congruence).
  rewrite clamp_cases by (auto using le_0_1).
  rewrite (lt_asym _ _ H).
  destruct (lt (num 1) v); [reflexivity | exact H].
Qed.

Lemma clamp_degenerate (t : number) :
  isNaN t = false -> clamp t (num 0) (num 0) = num 0.
Proof.
  intros Hn. rewrite clamp_cases by auto.
  destruct (lt t (num 0)) eqn:E1; [reflexivity|].
  destruct (lt (num 0) t) eqn:E2; [reflexivity|].
  now apply lt_total.
Qed.

Lemma le_bounds (lo hi : number) :
  le lo hi = true ->
  isNaN lo = false /\ isNaN hi = false /\ lt hi lo = false.
Proof.
  unfold le. intros H.
  apply andb_true_iff in H as [H Hlt].
  apply andb_true_iff in H as [Hlo Hhi].
  now apply negb_true_iff in Hlo, Hhi, Hlt.
Qed.

(** ** [formatTime] *)

Lemma this_num (z : Z) : (Q2Qc (inject_Z z) == inject_Z z)%Q.
Proof. exact (Qred_correct (inject_Z z)). Qed.

Lemma this_div (p q : Qc) : ((p / q)%Qc == p / q)%Q.
Proof.
  unfold Qcdiv, Qcmult, Qcinv. cbn [this Q2Qc].
  rewrite !Qred_correct. reflexivity.
Qed.

Lemma this_minus_mult (p q r : Qc) : ((p - q * r)%Qc == p - q * r)%Q.
Proof.
  unfold Qcminus, Qcplus, Qcopp, Qcmult. cbn [this Q2Qc].
  rewrite !Qred_correct. reflexivity.
Qed.

Lemma Qfloor_num (z : Z) : Qfloor (Q2Qc (inject_Z z)) = z.
Proof. rewrite this_num. apply Qfloor_Z. Qed.

Lemma negative_num (z : Z) : (0 <= z)%Z -> negative (Q2Qc (inject_Z z)) = false.
Proof.
  intros Hz. unfold negative.
  destruct (Qc_ltb (Q2Qc (inject_Z z)) 0) eqn:E; [|reflexivity].
  apply Qc_ltb_lt in E. rewrite this_num in E.
  change (this 0%Qc) with (inject_Z 0) in E.
  rewrite <- Zlt_Qlt in E. lia.
Qed.

Lemma truncate_num (z : Z) : (0 <= z)%Z -> truncate (Q2Qc (inject_Z z)) = z.
Proof.
  intros Hz. unfold truncate. rewrite negative_num by assumption.
  apply Qfloor_num.
Qed.

(** The values [formatTime] prints are integral. *)
Lemma Math_floor_integral (n : number) :
  Number_isFinite n = true -> exists z, Math_floor n = num z.
Proof. destruct n; try discriminate. intros _. now eexists. Qed.

Lemma sixty_nonzero : Qc_eqb (Q2Qc (inject_Z 60)) 0 = false.
Proof. reflexivity. Qed.

Lemma div_Fin (p q : Qc) :
  Qc_eqb q 0 = false -> div (Fin p) (Fin q) = binary64 (p / q)%Qc.
Proof. intros H. unfold div. now rewrite H. Qed.

Lemma rem_Fin (p q : Qc) :
  Qc_eqb q 0 = false ->
  rem (Fin p) (Fin q)
  = Fin (p - q * Q2Qc (inject_Z (truncate (p / q))))%Qc.
Proof. intros H. unfold rem. now rewrite H. Qed.

Lemma Qfloor_num_div_60 (z : Z) :
  Qfloor (Q2Qc (inject_Z z) / Q2Qc (inject_Z 60))%Qc = (z / 60)%Z.
Proof. rewrite this_div, !this_num. symmetry. apply Zdiv_Qdiv. Qed.

(** *** The rounded quotient by sixty *)

Lemma pow2_pos (e : Z) : (0 < pow2 e)%Q.
Proof. apply Qpower_0_lt. reflexivity. Qed.

Lemma pow2_le (a b : Z) : (a <= b)%Z -> (pow2 a <= pow2 b)%Q.
Proof. intros H. apply Qpower_le_compat_l; [exact H | discriminate]. Qed.

Lemma pow2_Z (n : Z) : (0 <= n)%Z -> (pow2 n == inject_Z (2 ^ n))%Q.
Proof. intros H. unfold pow2. now rewrite Zpower_Qpower. Qed.

Lemma floor_log2_lower (a : Q) : (0 < a)%Q -> (pow2 (floor_log2 a) <= a)%Q.
Proof.
  intros Ha. unfold floor_log2.
  destruct (Qle_bool _ a) eqn:E; [now apply Qle_bool_iff|].
  destruct a as [n d]. cbn [Qnum Qden].
  assert (Hn : (0 < n)%Z) by (unfold Qlt in Ha; cbn in Ha; lia).
  pose proof (Z.log2_spec n Hn) as [Ln _].
  pose proof (Z.log2_spec (Z.pos d) (Pos2Z.is_pos d)) as [_ Ud].
  pose proof (Z.log2_nonneg n) as Nn.
  pose proof (Z.log2_nonneg (Z.pos d)) as Nd.
  replace (Z.log2 n - Z.log2 (Z.pos d) - 1)%Z
    with (Z.log2 n - Z.succ (Z.log2 (Z.pos d)))%Z by lia.
  unfold pow2. rewrite Qpower_minus by discriminate.
  fold (pow2 (Z.log2 n)). fold (pow2 (Z.succ (Z.log2 (Z.pos d)))).
  rewrite !pow2_Z by lia.
  set (A := (2 ^ Z.log2 n)%Z) in *.
  set (B := (2 ^ Z.succ (Z.log2 (Z.pos d)))%Z) in *.
  assert (HB : (0 < B)%Z) by lia.
  rewrite (Qmake_Qdiv n d).
  apply Qle_shift_div_l;
    [change 0%Q with (inject_Z 0); rewrite <- Zlt_Qlt; lia|].
  unfold Qdiv. rewrite <- Qmult_assoc, (Qmult_comm (/ _)), Qmult_assoc.
  apply Qle_shift_div_r;
    [change 0%Q with (inject_Z 0); rewrite <- Zlt_Qlt; exact HB|].
  rewrite <- !inject_Z_mult, <- Zle_Qle. nia.
Qed.

Lemma floor_log2_upper (a : Q) (b : Z) :
  (0 < a)%Q -> (a < pow2 b)%Q -> (floor_log2 a < b)%Z.
Proof.
  intros Ha Hb.
  destruct (Z.lt_ge_cases (floor_log2 a) b) as [L | G]; [exact L|].
  exfalso. pose proof (floor_log2_lower a Ha) as Lo.
  pose proof (pow2_le _ _ G) as M. lra.
Qed.

Lemma round_half_even_near (x : Q) :
  (inject_Z (round_half_even x) - (1 # 2) <= x
   /\ x <= inject_Z (round_half_even x) + (1 # 2))%Q.
Proof.
  unfold round_half_even.
  pose proof (Qfloor_le x) as L. pose proof (Qlt_floor x) as U.
  rewrite inject_Z_plus in U. change (inject_Z 1) with 1%Q in U.
  destruct (x - inject_Z (Qfloor x) ?= 1 # 2)%Q eqn:C.
  - apply Qeq_alt in C.
    destruct (Z.even (Qfloor x));
      rewrite ?inject_Z_plus; change (inject_Z 1) with 1%Q; split; lra.
  - apply Qlt_alt in C. split; lra.
  - apply Qgt_alt in C. rewrite inject_Z_plus.
    change (inject_Z 1) with 1%Q. split; lra.
Qed.

Lemma Qfloor_unique (x : Q) (k : Z) :
  (inject_Z k <= x)%Q -> (x < inject_Z (k + 1))%Q -> Qfloor x = k.
Proof.
  intros L U.
  pose proof (Qfloor_le x) as L'. pose proof (Qlt_floor x) as U'.
  assert (inject_Z k < inject_Z (Qfloor x + 1))%Q by lra.
  assert (inject_Z (Qfloor x) < inject_Z (k + 1))%Q by lra.
  rewrite <- Zlt_Qlt in *. lia.
Qed.

(** Below [2^53] the rounding of the quotient by sixty never reaches the
    next integer: the quotient is at least one sixtieth away from it and
    the binary64 values are at most one thirty-second apart there. *)
Lemma binary64_div_60 (z : Z) :
  (0 <= z < safe_bound)%Z ->
  Math_floor (binary64 (Q2Qc (inject_Z z) / Q2Qc (inject_Z 60))%Qc)
  = num (z / 60).
Proof.
  intros [Hz0 Hz].
  set (a := this (Q2Qc (inject_Z z) / Q2Qc (inject_Z 60))%Qc).
  assert (Ha : (a == inject_Z z / inject_Z 60)%Q)
    by (unfold a; now rewrite this_div, !this_num).
  assert (Ha60 : (a * inject_Z 60 == inject_Z z)%Q)
    by (rewrite Ha; field; discriminate).
  destruct (Z.eq_dec z 0) as [-> | Hnz].
  { unfold binary64. fold a.
    assert (E : (a ?= 0)%Q = Eq) by (apply Qeq_alt; rewrite Ha; reflexivity).
    rewrite E. reflexivity. }
  assert (Hpos : (0 < a)%Q).
  { rewrite Ha. apply Qlt_shift_div_l; [reflexivity|].
    rewrite Qmult_0_l. change 0%Q with (inject_Z 0).
    rewrite <- Zlt_Qlt. lia. }
  assert (Hlt48 : (a < pow2 48)%Q).
  { rewrite Ha. apply Qlt_shift_div_r; [reflexivity|].
    rewrite (pow2_Z 48) by lia. rewrite <- inject_Z_mult, <- Zlt_Qlt.
    unfold safe_bound in Hz. lia. }
  pose proof (floor_log2_upper a 48 Hpos Hlt48) as Hlog.
  unfold binary64. fold a.
  assert (E : (a ?= 0)%Q = Gt) by (now apply Qgt_alt).
  rewrite E. unfold round_binary64.
  set (e := Z.max (floor_log2 a - 52) (-1074)).
  assert (He : (e <= -5)%Z) by (unfold e; lia).
  set (p := (- e)%Z).
  assert (Hp : (5 <= p)%Z) by (unfold p; lia).
  assert (Epow : (pow2 e == / inject_Z (2 ^ p))%Q).
  { replace e with (- p)%Z by (unfold p; lia).
    unfold pow2. rewrite Qpower_opp. fold (pow2 p).
    now rewrite pow2_Z by lia. }
  set (N := (2 ^ p)%Z) in *.
  assert (HN : (32 <= N)%Z).
  { unfold N. change 32%Z with (2 ^ 5)%Z.
    apply Z.pow_le_mono_r; lia. }
  set (y := (a / pow2 e)%Q).
  assert (Ey : (y == a * inject_Z N)%Q).
  { unfold y. rewrite Epow. field.
    change 0%Q with (inject_Z 0). rewrite inject_Z_injective. lia. }
  pose proof (round_half_even_near y) as [Lo Up].
  set (m := round_half_even y) in *.
  assert (Z1 : (z * N <= 60 * m + 30)%Z).
  { rewrite Zle_Qle.
    rewrite inject_Z_plus, !inject_Z_mult, <- Ha60.
    change (inject_Z 60) with 60%Q. change (inject_Z 30) with 30%Q.
    setoid_replace (a * 60 * inject_Z N)%Q with (60 * y)%Q
      by (rewrite Ey; ring).
    lra. }
  assert (Z2 : (60 * m - 30 <= z * N)%Z).
  { rewrite Zle_Qle. unfold Z.sub.
    rewrite inject_Z_plus, inject_Z_opp, !inject_Z_mult, <- Ha60.
    change (inject_Z 60) with 60%Q. change (inject_Z 30) with 30%Q.
    setoid_replace (a * 60 * inject_Z N)%Q with (60 * y)%Q
      by (rewrite Ey; ring).
    lra. }
  pose proof (Z.div_mod z 60 ltac:(lia)) as DM.
  pose proof (Z.mod_pos_bound z 60 ltac:(lia)) as MB.
  set (k := (z / 60)%Z) in *. set (r := (z mod 60)%Z) in *.
  assert (Hk : (0 <= k)%Z) by (apply Z.div_pos; lia).
  assert (M1 : (k * N <= m)%Z) by nia.
  assert (M2 : (m < (k + 1) * N)%Z) by nia.
  set (res := (inject_Z m * pow2 e)%Q).
  assert (Eres : (res == inject_Z m / inject_Z N)%Q)
    by (unfold res; rewrite Epow; reflexivity).
  assert (PN : (0 < inject_Z N)%Q)
    by (change 0%Q with (inject_Z 0); rewrite <- Zlt_Qlt; lia).
  assert (R1 : (inject_Z k <= res)%Q).
  { rewrite Eres. apply Qle_shift_div_l; [exact PN|].
    rewrite <- inject_Z_mult, <- Zle_Qle. exact M1. }
  assert (R2 : (res < inject_Z (k + 1))%Q).
  { rewrite Eres. apply Qlt_shift_div_r; [exact PN|].
    rewrite <- inject_Z_mult, <- Zlt_Qlt. exact M2. }
  assert (Over : Qle_bool (pow2 1024) res = false).
  { destruct (Qle_bool (pow2 1024) res) eqn:O; [|reflexivity].
    apply Qle_bool_iff in O. exfalso.
    assert (B : (inject_Z (k + 1) <= inject_Z safe_bound)%Q)
      by (rewrite <- Zle_Qle; unfold safe_bound in *; lia).
    assert (C : (inject_Z safe_bound < pow2 1024)%Q).
    { rewrite (pow2_Z 1024) by lia. rewrite <- Zlt_Qlt. reflexivity. }
    lra. }
  rewrite Over. unfold Math_floor. f_equal.
  change (this (Q2Qc res)) with (Qred res). rewrite Qred_correct.
  now apply Qfloor_unique.
Qed.

Lemma div_num_60 (z : Z) :
  (0 <= z < safe_bound)%Z ->
  Math_floor (div (num z) (num 60)) = num (z / 60).
Proof.
  intros Hz. unfold num at 1 2. rewrite div_Fin by apply sixty_nonzero.
  now apply binary64_div_60.
Qed.

Lemma rem_num_60 (z : Z) : (0 <= z)%Z -> rem (num z) (num 60) = num (z mod 60).
Proof.
  intros Hz. unfold num at 1 2. rewrite rem_Fin by apply sixty_nonzero.
  unfold num. f_equal. apply Qc_is_canon.
  assert (T : truncate (Q2Qc (inject_Z z) / Q2Qc (inject_Z 60))%Qc
              = (z / 60)%Z).
  { unfold truncate.
    destruct (negative _) eqn:N; [|apply Qfloor_num_div_60].
    exfalso. unfold negative in N. apply Qc_ltb_lt in N.
    assert (0 <= (Q2Qc (inject_Z z) / Q2Qc (inject_Z 60))%Qc)%Q.
    { rewrite this_div, !this_num.
      apply Qle_shift_div_l; [reflexivity|].
      rewrite Qmult_0_l. change 0%Q with (inject_Z 0).
      rewrite <- Zle_Qle. exact Hz. }
    change (this 0%Qc) with 0%Q in N. lra. }
  rewrite T, this_minus_mult, !this_num.
  rewrite (Z.mod_eq z 60) by lia.
  unfold Zminus. rewrite inject_Z_plus, inject_Z_opp, inject_Z_mult.
  reflexivity.
Qed.

Lemma integral_num (z : Z) : integral (Q2Qc (inject_Z z)) = true.
Proof.
  unfold integral. apply Qeq_bool_iff. now rewrite Qfloor_num, this_num.
Qed.

Lemma ToString_num (z : Z) :
  (0 <= z < safe_bound)%Z ->
  ToString (num z)
  = Some (NilZero.string_of_uint (N.to_uint (Z.to_N z))).
Proof.
  intros Hz. unfold ToString, num. rewrite integral_num, Qfloor_num.
  replace (Z.abs z <? safe_bound)%Z with true
    by (symmetry; apply Z.ltb_lt; lia).
  cbn [andb]. f_equal.
  destruct z as [|p|p]; [reflexivity | reflexivity | lia].
Qed.

Lemma upto_In (n : nat) (z : Z) : (0 <= z < Z.of_nat n)%Z -> In z (upto n).
Proof.
  induction n as [|k IH]; simpl; intros H; [lia|].
  apply in_or_app.
  destruct (Z.eq_dec z (Z.of_nat k)) as [->|Hne];
    [right; now left | left; apply IH; lia].
Qed.

Lemma pad_seconds (r : Z) :
  (0 <= r < 60)%Z ->
  padStart (NilZero.string_of_uint (N.to_uint (Z.to_N r))) 2 "0"
  = two_digits r.
Proof.
  intros Hr.
  assert (A : forallb
            (fun r => String.eqb
                        (padStart
                           (NilZero.string_of_uint (N.to_uint (Z.to_N r)))
                           2 "0")
                        (two_digits r)) (upto 60) = true)
    by (vm_compute; reflexivity).
  rewrite forallb_forall in A.
  apply String.eqb_eq, A, upto_In. exact Hr.
Qed.

Lemma Qfloor_nonneg (q : Qc) : (0 <= q)%Q -> (0 <= Qfloor q)%Z.
Proof.
  intros H. rewrite <- (Qfloor_Z 0). now apply Qfloor_resp_le.
Qed.

Lemma lt_zero_false (q : Qc) : (0 <= q)%Q -> lt (Fin q) (num 0) = false.
Proof.
  intros H. simpl. destruct (Qc_ltb q _) eqn:E; [|reflexivity].
  apply Qc_ltb_lt in E. rewrite this_num in E.
  change (inject_Z 0) with 0%Q in E. lra.
Qed.

(** On a non-negative number below [2^53], [formatTime] prints what the
    specification describes. *)
Lemma formatTime_finite (q : Qc) :
  (0 <= q)%Q -> (q < inject_Z safe_bound)%Q ->
  formatTime (Fin q) = Some (minutes_seconds (Qfloor q)).
Proof.
  intros Hq Hb. pose proof (Qfloor_nonneg q Hq) as Hz.
  assert (Hzb : (Qfloor q < safe_bound)%Z).
  { rewrite Zlt_Qlt. apply Qle_lt_trans with q; [apply Qfloor_le | exact Hb]. }
  pose proof (Z.mod_pos_bound (Qfloor q) 60 ltac:(lia)) as Hr.
  assert (Hm : (0 <= Qfloor q / 60 < safe_bound)%Z).
  { split; [apply Z.div_pos; lia|].
    apply Z.le_lt_trans with (Qfloor q); [|exact Hzb].
    apply Z.div_le_upper_bound; lia. }
  unfold formatTime. rewrite lt_zero_false by assumption.
  cbn [Number_isFinite negb orb].
  change (Math_floor (Fin q)) with (num (Qfloor q)).
  rewrite div_num_60, rem_num_60 by lia.
  rewrite !ToString_num by (unfold safe_bound in *; lia).
  rewrite pad_seconds by assumption.
  reflexivity.
Qed.


Lemma formatTime_guard (n : number) :
  Number_isFinite n = false \/ lt n (num 0) = true ->
  formatTime n = Some "0:00".
Proof.
  intros [H | H]; unfold formatTime; rewrite H; simpl; auto.
  now rewrite orb_true_r.
Qed.

(** Flooring commutes with the division by sixty. *)
Lemma Qfloor_div_60 (q : Qc) :
  Qfloor (q / Q2Qc (inject_Z 60))%Qc = (Qfloor q / 60)%Z.
Proof.
  rewrite this_div, this_num.
  pose proof (Qfloor_le q) as L. pose proof (Qlt_floor q) as U.
  set (z := Qfloor q) in *.
  pose proof (Z.div_mod z 60 ltac:(lia)) as DM.
  pose proof (Z.mod_pos_bound z 60 ltac:(lia)) as MB.
  set (k := (z / 60)%Z) in *.
  assert (Lk : (inject_Z k <= q / inject_Z 60)%Q).
  { apply Qle_shift_div_l; [reflexivity|].
    rewrite <- inject_Z_mult. apply Qle_trans with (inject_Z z); [|exact L].
    rewrite <- Zle_Qle. lia. }
  assert (Uk : (q / inject_Z 60 < inject_Z (k + 1))%Q).
  { apply Qlt_shift_div_r; [reflexivity|].
    rewrite <- inject_Z_mult.
    apply Qlt_le_trans with (inject_Z (z + 1)); [exact U|].
    rewrite <- Zle_Qle. lia. }
  pose proof (Qfloor_le (q / inject_Z 60)) as L2.
  pose proof (Qlt_floor (q / inject_Z 60)) as U2.
  set (f := Qfloor (q / inject_Z 60)) in *.
  assert (inject_Z f < inject_Z (k + 1))%Q by lra.
  assert (inject_Z k < inject_Z (f + 1))%Q by lra.
  rewrite <- Zlt_Qlt in *. lia.
Qed.

(** ** The commands on an attached and on a detached element *)

Lemma clamp_finite (t hi : number) :
  isNaN t = false -> Number_isFinite hi = true ->
  Number_isFinite (clamp t (num 0) hi) = true.
Proof.
  intros Ht Hhi. destruct hi as [| | |h]; try discriminate.
  destruct t as [| | |q]; try discriminate;
    unfold clamp, Math_max, Math_min, num; cbn [isNaN orb lt];
    repeat match goal with
      | |- context [Qc_ltb ?a ?b] =>
          destruct (Qc_ltb a b); cbn [isNaN orb lt]
      end;
    reflexivity.
Qed.

(** The element accepts what [setVolume] assigns for every argument but
    [NaN]. *)
Lemma assign_volume_clamp (vol : number) (v : Video.t) :
  Video.assign_volume (clamp vol (num 0) (num 1)) v
  = if isNaN vol then inr TypeError
    else inl (Video.set_volume (clamp vol (num 0) (num 1)) v).
Proof.
  unfold Video.assign_volume.
  destruct (isNaN vol) eqn:Hn.
  - destruct vol; try discriminate. reflexivity.
  - rewrite (clamp_finite vol (num 1) Hn eq_refl).
    pose proof (clamp_within vol (num 0) (num 1) Hn le_0_1) as W.
    unfold within in W. apply andb_true_iff in W as [W1 W2].
    apply le_bounds in W1 as (_ & _ & ->).
    apply le_bounds in W2 as (_ & _ & ->). reflexivity.
Qed.

(** The element accepts what [seekTo] assigns for every target but
    [NaN]. *)
Lemma assign_currentTime_clamp (t hi : number) (v : Video.t) :
  Number_isFinite hi = true ->
  Video.assign_currentTime (clamp t (num 0) hi) v
  = if isNaN t then inr TypeError
    else inl (Video.set_currentTime (clamp t (num 0) hi) v).
Proof.
  intros Hhi. unfold Video.assign_currentTime.
  destruct (isNaN t) eqn:Hn.
  - destruct t; try discriminate. reflexivity.
  - now rewrite clamp_finite.
Qed.

Lemma setVolume_attached (vol : number) (w : World) :
  videoRef w = true ->
  setVolume vol w =
    if isNaN vol then (Abrupt TypeError, w)
    else
      (Normal tt,
       let w1 := on_video (Video.set_volume (clamp vol (num 0) (num 1))) w in
       if gt (clamp vol (num 0) (num 1)) (num 0)
       then on_video (Video.set_muted false) w1
       else w1).
Proof.
  intros H. unfold setVolume, bind, read, videoRef_current.
  rewrite H. unfold assign. rewrite assign_volume_clamp.
  destruct (isNaN vol); [reflexivity|].
  unfold modify. cbv zeta.
  change (Video.volume (video (set_video (Video.set_volume ?x (video w)) w)))
    with x.
  destruct (gt _ _); reflexivity.
Qed.

Lemma seekTo_attached (t : number) (w : World) :
  videoRef w = true ->
  seekTo t w =
    if isNaN t then (Abrupt TypeError, w)
    else
      (Normal tt,
       on_video
         (Video.set_currentTime
            (clamp t (num 0)
               (if Number_isFinite (Video.duration (video w))
                then Video.duration (video w) else num 0))) w).
Proof.
  intros H. unfold seekTo, bind, read, videoRef_current.
  rewrite H. unfold assign. rewrite assign_currentTime_clamp.
  - now destruct (isNaN t).
  - now destruct (Number_isFinite (Video.duration (video w))) eqn:E.
Qed.

Lemma toggleMute_attached (w : World) :
  videoRef w = true ->
  toggleMute w =
    (Normal tt,
     on_video (Video.set_muted (negb (Video.muted (video w)))) w).
Proof.
  intros H. unfold toggleMute, bind, read, videoRef_current.
  rewrite H. reflexivity.
Qed.

Lemma togglePlay_rejected_run (pf : Platform) (e : exn) (w : World) :
  videoRef w = true -> Video.paused (video w) = true ->
  play_promise pf = Rejected e ->
  togglePlay pf w
  = (Normal tt, log_error "play() failed:" e (log_call CallPlay w)).
Proof.
  intros Hr Hp He.
  unfold togglePlay, bind, read, videoRef_current. rewrite Hr, Hp.
  unfold try_catch, HTMLMediaElement_play, bind, modify. rewrite He.
  reflexivity.
Qed.

Ltac frame_done :=
  repeat split; solve [reflexivity | eassumption].

(** No command touches the state of the component or the listeners. *)
Lemma command_frame (a : Action) (w : World) :
  match a with
  | Mount | Unmount | Notify _ | Playback _ _ _ => True
  | _ =>
      state (step w a) = state w
      /\ Video.listeners (video (step w a)) = Video.listeners (video w)
      /\ videoRef (step w a) = videoRef w
      /\ cleanup (step w a) = cleanup w
  end.
Proof.
  destruct a; try exact I; unfold step, perform.
  - unfold togglePlay, bind, read, videoRef_current.
    destruct (videoRef w) eqn:H; [|frame_done].
    unfold try_catch, HTMLMediaElement_play, HTMLMediaElement_pause,
      bind, modify.
    destruct (Video.paused (video w)); [|frame_done].
    destruct (play_promise pf); frame_done.
  - destruct (videoRef w) eqn:H.
    + rewrite seekTo_attached by assumption.
      destruct (isNaN t); frame_done.
    + unfold seekTo, bind, read, videoRef_current. rewrite H.
      frame_done.
  - unfold toggleMute, bind, read, videoRef_current.
    destruct (videoRef w) eqn:H; frame_done.
  - destruct (videoRef w) eqn:H.
    + rewrite setVolume_attached by assumption. cbv zeta.
      destruct (isNaN vol); [|destruct (gt _ _)]; frame_done.
    + unfold setVolume, bind, read, videoRef_current. rewrite H.
      frame_done.
  - unfold fullscreen, bind, read, videoRef_current.
    destruct (videoRef w) eqn:H; [|frame_done].
    unfold try_catch, Document_exitFullscreen, Element_requestFullscreen,
      bind, read, modify.
    destruct (fullscreenElement w);
      [destruct (exitFullscreen_promise pf)
      |destruct (requestFullscreen_promise pf)]; frame_done.
Qed.

(** ** Listeners and notifications *)

Lemma video_call_listener (l : Listener) (w : World) :
  video (call_listener l w) = video w.
Proof. reflexivity. Qed.

(** A property of worlds kept by every listener is kept by a
    notification. *)
Lemma dispatchEvent_ind (P : World -> Prop) (e : EventType) (w : World) :
  (forall l w', P w' -> P (call_listener l w')) ->
  P w -> P (dispatchEvent e w).
Proof.
  intros Hl. unfold dispatchEvent.
  generalize (Video.listeners (video w)) as ls. intros ls. revert w.
  induction ls as [|[ty cb] ls IH]; intros w Hw; simpl; [exact Hw|].
  apply IH. destruct (EventType_eqb e ty); auto.
Qed.

Lemma dispatchEvent_frame (e : EventType) (w : World) :
  video (dispatchEvent e w) = video w
  /\ videoRef (dispatchEvent e w) = videoRef w
  /\ cleanup (dispatchEvent e w) = cleanup w.
Proof.
  apply (dispatchEvent_ind
           (fun w' => video w' = video w /\ videoRef w' = videoRef w
                      /\ cleanup w' = cleanup w)); [|auto].
  intros l w' H. exact H.
Qed.

(** With no listener registered a notification changes nothing. *)
Lemma dispatchEvent_unsubscribed (e : EventType) (w : World) :
  Video.listeners (video w) = [] -> dispatchEvent e w = w.
Proof. intros H. unfold dispatchEvent. now rewrite H. Qed.

Lemma same_listener_eq (a b : EventType * Listener) :
  same_listener a b = true <-> a = b.
Proof.
  destruct a as [[] []], b as [[] []]; cbv; split; congruence.
Qed.

Lemma addEventListener_listeners (ty : EventType) (cb : Listener)
  (v : Video.t) (l : EventType * Listener) :
  In l (Video.listeners (Video.addEventListener ty cb v)) ->
  In l (Video.listeners v) \/ l = (ty, cb).
Proof.
  unfold Video.addEventListener.
  destruct (existsb _ _); [now left|].
  simpl. intros H. apply in_app_or in H as [H | [H | []]]; auto.
Qed.

Lemma removeEventListener_listeners (ty : EventType) (cb : Listener)
  (v : Video.t) (l : EventType * Listener) :
  In l (Video.listeners (Video.removeEventListener ty cb v)) <->
  In l (Video.listeners v) /\ l <> (ty, cb).
Proof.
  unfold Video.removeEventListener. simpl. rewrite filter_In.
  rewrite negb_true_iff, <- not_true_iff_false, same_listener_eq.
  intuition congruence.
Qed.

Lemma effect_listeners (w w' : World) (c : bool) (l : EventType * Listener) :
  effect w = (w', c) ->
  In l (Video.listeners (video w')) ->
  In l (Video.listeners (video w)) \/ In l registered.
Proof.
  unfold effect. destruct (videoRef_current w); intros E; inversion E; subst;
    [|now left].
  cbv zeta. unfold call_listener, setState, on_video.
  cbn [video set_state set_video].
  intros H.
  repeat (apply addEventListener_listeners in H as [H | ->];
          [| right; cbv; tauto]).
  now left.
Qed.

Lemma effect_cleanup_listeners (w : World) :
  (forall l, In l (Video.listeners (video w)) -> In l registered) ->
  Video.listeners (video (effect_cleanup w)) = [].
Proof.
  intros H.
  destruct (Video.listeners (video (effect_cleanup w))) as [|l ls] eqn:E;
    [reflexivity|].
  exfalso.
  assert (I : In l (Video.listeners (video (effect_cleanup w))))
    by (rewrite E; now left).
  unfold effect_cleanup, on_video in I. cbn [video set_video] in I.
  repeat (apply removeEventListener_listeners in I as [I ?]).
  apply H in I. cbv in I. intuition congruence.
Qed.

Lemma effect_cleanup_frame (w : World) :
  state (effect_cleanup w) = state w
  /\ Video.volume (video (effect_cleanup w)) = Video.volume (video w).
Proof. split; reflexivity. Qed.

(** ** Invariants of a run *)

Lemma addEventListener_volume (ty : EventType) (cb : Listener) (v : Video.t) :
  Video.volume (Video.addEventListener ty cb v) = Video.volume v.
Proof. unfold Video.addEventListener. now destruct (existsb _ _). Qed.

Lemma mount_cases (w : World) :
  cleanup (mount w) = true
  /\ Video.volume (video (mount w)) = Video.volume (video w)
  /\ volume (state (mount w)) = Video.volume (video w)
  /\ (forall l, In l (Video.listeners (video (mount w))) ->
        In l (Video.listeners (video w)) \/ In l registered).
Proof.
  unfold mount.
  destruct (effect (set_videoRef true w)) as [w' c] eqn:E.
  pose proof (fun l => effect_listeners _ _ _ l E) as L.
  unfold effect, videoRef_current in E. cbn [videoRef set_videoRef] in E.
  cbv zeta in E. injection E as Ew Ec.
  repeat split; [ | | | exact L]; subst w' c;
    unfold call_listener, setState, on_video, updater;
    cbn [video state volume cleanup set_state set_video set_videoRef
         set_cleanup];
    now rewrite ?addEventListener_volume.
Qed.

Lemma unmount_cases (w : World) :
  subscription_ok w ->
  Video.listeners (video (unmount w)) = []
  /\ cleanup (unmount w) = false
  /\ state (unmount w) = state w
  /\ Video.volume (video (unmount w)) = Video.volume (video w).
Proof.
  intros [Hin Hcl]. unfold unmount.
  destruct (cleanup w) eqn:C.
  - repeat split. cbn [video set_videoRef set_cleanup].
    now apply effect_cleanup_listeners.
  - repeat split. cbn [video set_videoRef set_cleanup]. now apply Hcl.
Qed.

Lemma step_subscription_ok (a : Action) (w : World) :
  subscription_ok w -> subscription_ok (step w a).
Proof.
  intros H. pose proof H as [Hin Hcl].
  pose proof (command_frame a w) as F.
  destruct a;
    try (destruct F as (_ & Fl & _ & Fc); unfold subscription_ok;
         rewrite Fl, Fc; exact H).
  - destruct (mount_cases w) as (C & _ & _ & L).
    split.
    + intros l Hl. apply L in Hl as [Hl | Hl]; auto.
    + change (step w Mount) with (mount w). congruence.
  - destruct (unmount_cases w H) as (L & C & _).
    change (step w Unmount) with (unmount w).
    split; [rewrite L; intros l []| now intros _].
  - destruct (dispatchEvent_frame e w) as (V & _ & C).
    change (step w (Notify e)) with (dispatchEvent e w).
    unfold subscription_ok. rewrite V, C. exact H.
  - exact H.
Qed.

Lemma run_app (w : World) (l1 l2 : list Action) :
  run w (l1 ++ l2) = run (run w l1) l2.
Proof. apply fold_left_app. Qed.

Lemma run_subscription_ok (l : list Action) (w : World) :
  subscription_ok w -> subscription_ok (run w l).
Proof.
  revert w. induction l as [|a l IH]; intros w H; [exact H|].
  apply IH, step_subscription_ok, H.
Qed.

Lemma initial_subscription_ok : subscription_ok initialWorld.
Proof. split; [intros l []|reflexivity]. Qed.

(** Without listeners, and until the component is mounted again, nothing
    reaches the snapshot. *)
Lemma step_unsubscribed (a : Action) (w : World) :
  is_mount a = false -> Video.listeners (video w) = [] ->
  state (step w a) = state w /\ Video.listeners (video (step w a)) = [].
Proof.
  intros Ha Hl. pose proof (command_frame a w) as F.
  destruct a; try discriminate;
    try (destruct F as (Fs & Fl & _); rewrite Fs, Fl; auto).
  - change (step w Unmount) with (unmount w). unfold unmount.
    destruct (cleanup w); split; try reflexivity;
      cbn [video set_videoRef set_cleanup]; [|exact Hl].
    unfold effect_cleanup, on_video, Video.removeEventListener.
    cbn [video set_video Video.listeners Video.set_listeners].
    now rewrite Hl.
  - change (step w (Notify e)) with (dispatchEvent e w).
    rewrite dispatchEvent_unsubscribed by assumption. auto.
  - split; [reflexivity | exact Hl].
Qed.

Lemma run_unsubscribed (l : list Action) (w : World) :
  forallb (fun a => negb (is_mount a)) l = true ->
  Video.listeners (video w) = [] ->
  state (run w l) = state w.
Proof.
  revert w. induction l as [|a l IH]; intros w Hm Hl; [reflexivity|].
  simpl in Hm. apply andb_true_iff in Hm as [Ha Hm].
  apply negb_true_iff in Ha.
  destruct (step_unsubscribed a w Ha Hl) as [Hs Hl'].
  simpl. rewrite IH by assumption. exact Hs.
Qed.

Lemma command_volume (a : Action) (w : World) :
  match a with
  | TogglePlay _ | SeekTo _ | ToggleMute | Fullscreen _ =>
      Video.volume (video (step w a)) = Video.volume (video w)
  | _ => True
  end.
Proof.
  destruct a; try exact I; unfold step, perform.
  - unfold togglePlay, bind, read, videoRef_current.
    destruct (videoRef w); [|reflexivity].
    unfold try_catch, HTMLMediaElement_play, HTMLMediaElement_pause,
      bind, modify.
    destruct (Video.paused (video w)); [|reflexivity].
    destruct (play_promise pf); reflexivity.
  - destruct (videoRef w) eqn:H.
    + rewrite seekTo_attached by assumption. now destruct (isNaN t).
    + unfold seekTo, bind, read, videoRef_current. now rewrite H.
  - unfold toggleMute, bind, read, videoRef_current.
    destruct (videoRef w); reflexivity.
  - unfold fullscreen, bind, read, videoRef_current.
    destruct (videoRef w); [|reflexivity].
    unfold try_catch, Document_exitFullscreen, Element_requestFullscreen,
      bind, read, modify.
    destruct (fullscreenElement w);
      [destruct (exitFullscreen_promise pf)
      |destruct (requestFullscreen_promise pf)]; reflexivity.
Qed.

Lemma call_listener_volume_ok (l : Listener) (w : World) :
  volume_ok w -> volume_ok (call_listener l w).
Proof. intros [Hv Hs]. destruct l; split; assumption. Qed.

Lemma step_volume_ok (a : Action) (w : World) :
  subscription_ok w -> volume_ok w -> volume_ok (step w a).
Proof.
  intros Hsub [Hv Hs].
  pose proof (command_frame a w) as F. pose proof (command_volume a w) as V.
  destruct a;
    try (destruct F as (Fs & _); unfold volume_ok; rewrite Fs, V; now split).
  - destruct (mount_cases w) as (_ & E1 & E2 & _).
    change (step w Mount) with (mount w).
    unfold volume_ok. rewrite E1, E2. now split.
  - destruct (unmount_cases w Hsub) as (_ & _ & E1 & E2).
    change (step w Unmount) with (unmount w).
    unfold volume_ok. rewrite E1, E2. now split.
  - destruct F as (Fs & _). unfold volume_ok. rewrite Fs.
    split; [|exact Hs].
    unfold step, perform. destruct (videoRef w) eqn:R.
    + rewrite setVolume_attached by assumption. cbv zeta.
      destruct (isNaN vol) eqn:Hn; [exact Hv|].
      destruct (gt _ _);
        cbn [snd video on_video set_video Video.volume Video.set_volume
             Video.set_muted];
        apply clamp_within; auto using le_0_1.
    + unfold setVolume, bind, read, videoRef_current. rewrite R. exact Hv.
  - change (step w (Notify e)) with (dispatchEvent e w).
    apply dispatchEvent_ind; [apply call_listener_volume_ok | now split].
  - now split.
Qed.

Lemma run_volume_ok (l : list Action) (w : World) :
  subscription_ok w -> volume_ok w -> volume_ok (run w l).
Proof.
  revert w. induction l as [|a l IH]; intros w Hsub Hv; [exact Hv|].
  simpl. apply IH; auto using step_subscription_ok, step_volume_ok.
Qed.

Lemma initial_volume_ok : volume_ok initialWorld.
Proof. split; reflexivity. Qed.

Lemma dispatchEvent_ind_registered (P : World -> Prop) (e : EventType)
  (w : World) :
  (forall ty cb w', In (ty, cb) (Video.listeners (video w)) ->
     EventType_eqb e ty = true -> P w' -> P (call_listener cb w')) ->
  P w -> P (dispatchEvent e w).
Proof.
  unfold dispatchEvent.
  generalize (Video.listeners (video w)) as ls. intros ls. revert w.
  induction ls as [|[ty cb] ls IH]; intros w Hl Hw; simpl; [exact Hw|].
  apply IH.
  - intros ty' cb' w' Hin. apply Hl. now right.
  - destruct (EventType_eqb e ty) eqn:E; [|exact Hw].
    apply (Hl ty cb); auto. now left.
Qed.

Lemma untouched_by_refl (e : EventType) (s : PlayerState) :
  untouched_by e s s.
Proof. destruct e; cbn; auto. Qed.

Lemma untouched_by_trans (e : EventType) (s1 s2 s3 : PlayerState) :
  untouched_by e s1 s2 -> untouched_by e s2 s3 -> untouched_by e s1 s3.
Proof. destruct e; cbn; intuition congruence. Qed.

Lemma updater_untouched (l : Listener) (v : Video.t) (s : PlayerState) :
  untouched_by (event_of l) s (updater l v s).
Proof. destruct l; cbn; auto. Qed.

Lemma registered_event_of (ty : EventType) (cb : Listener) :
  In (ty, cb) registered -> ty = event_of cb.
Proof.
  unfold registered. simpl In. intros H.
  repeat (destruct H as [H | H]; [inversion H; reflexivity|]).
  destruct H.
Qed.

Lemma EventType_eqb_eq (a b : EventType) : EventType_eqb a b = true -> a = b.
Proof. destruct a, b; cbv; congruence. Qed.

(** * The claims *)

(** C1.  The stored volume lies in the closed interval [0, 1] after every
    operation: from the initial state (volume 1), after every run of
    mounting, unmounting, commands, notifications and playback changes,
    whatever the arguments of the [setVolume] calls (finite, infinite or
    [NaN]), the volume of the snapshot and the volume of the element
    satisfy [0 <= volume <= 1]; and what [setVolume] assigns for an
    argument other than [NaN] is never refused by the element. *)
Theorem volume_stays_in_unit_interval (acts : list Action) :
  within (num 0) (num 1) (volume (state (run initialWorld acts))) = true
  /\ within (num 0) (num 1) (Video.volume (video (run initialWorld acts)))
     = true
  /\ (forall vol : number,
        isNaN vol = false ->
        fst (setVolume vol (run initialWorld acts)) = Normal tt).
Proof.
  destruct (run_volume_ok acts initialWorld
              initial_subscription_ok initial_volume_ok) as [Hv Hs].
  repeat split; try assumption.
  intros vol Hn.
  destruct (videoRef (run initialWorld acts)) eqn:R.
  - rewrite setVolume_attached by assumption. now rewrite Hn.
  - unfold setVolume, bind, read, videoRef_current. now rewrite R.
Qed.

(** C2 (as amended).  For every input [vol] other than [NaN] and every
    attached element, [setVolume vol] completes normally and leaves the
    element's volume equal to [clamp vol 0 1], which is 0 for a negative
    input, 1 for an input above 1 and the input itself otherwise; whenever
    [vol > 0] the element is not muted afterwards, whatever its mute flag
    was. *)
Theorem setVolume_stores_clamp (vol : number) (w : World) :
  videoRef w = true -> isNaN vol = false ->
  fst (setVolume vol w) = Normal tt
  /\ Video.volume (video (snd (setVolume vol w))) = clamp vol (num 0) (num 1)
  /\ Video.volume (video (snd (setVolume vol w)))
     = (if lt vol (num 0) then num 0
        else if lt (num 1) vol then num 1 else vol)
  /\ (gt vol (num 0) = true ->
      Video.muted (video (snd (setVolume vol w))) = false).
Proof.
  intros H Hn. rewrite setVolume_attached by assumption.
  rewrite Hn. cbv zeta.
  split; [reflexivity|]. split; [|split].
  - destruct (gt _ _); reflexivity.
  - rewrite <- (clamp_cases vol (num 0) (num 1) Hn le_0_1).
    destruct (gt _ _); reflexivity.
  - intros Hpos. rewrite (clamp_unit_positive vol Hpos). reflexivity.
Qed.

Lemma setVolume_stores_clamp_witness :
  (videoRef muted_half = true /\ Video.muted (video muted_half) = true
   /\ Video.volume (video muted_half) = ratio 1 2)
  /\ Video.volume (video (snd (setVolume (num 7) muted_half))) = num 1
  /\ Video.muted (video (snd (setVolume (num 7) muted_half))) = false.
Proof.
  split; [repeat split|].
  pose proof (setVolume_stores_clamp (num 7) muted_half eq_refl eq_refl)
    as (_ & _ & Hvolume & Hmuted).
  split; [exact Hvolume | exact (Hmuted eq_refl)].
Defined.

(** C2 as stated fails on the input [NaN]: the element refuses the
    assignment of [clamp(NaN, 0, 1) = NaN], so [setVolume(NaN)] throws a
    [TypeError] and the volume stays what it was, here one half. *)
Lemma setVolume_NaN_throws :
  videoRef muted_half = true
  /\ fst (setVolume NaN muted_half) = Abrupt TypeError
  /\ Video.volume (video (snd (setVolume NaN muted_half))) = ratio 1 2
  /\ Video.volume (video (snd (setVolume NaN muted_half)))
     <> clamp NaN (num 0) (num 1).
Proof. repeat split; try reflexivity. discriminate. Qed.

(** C3 (as amended).  For every seek target [t] other than [NaN] and
    every attached element, [seekTo t] completes normally; with a known
    (finite) duration [d] it sets the current time to [clamp t 0 d], which
    for [0 <= d] is 0 for a negative target, [d] for a target beyond [d]
    and the target itself otherwise; with the duration unknown (not
    finite) the current time becomes 0. *)
Theorem seekTo_clamps (t : number) (w : World) :
  videoRef w = true -> isNaN t = false ->
  fst (seekTo t w) = Normal tt
  /\ (Number_isFinite (Video.duration (video w)) = true ->
      Video.currentTime (video (snd (seekTo t w)))
      = clamp t (num 0) (Video.duration (video w)))
  /\ (Number_isFinite (Video.duration (video w)) = true ->
      le (num 0) (Video.duration (video w)) = true ->
      Video.currentTime (video (snd (seekTo t w)))
      = (if lt t (num 0) then num 0
         else if lt (Video.duration (video w)) t
              then Video.duration (video w) else t))
  /\ (Number_isFinite (Video.duration (video w)) = false ->
      Video.currentTime (video (snd (seekTo t w))) = num 0).
Proof.
  intros H Hn. rewrite seekTo_attached by assumption. rewrite Hn.
  cbn [fst snd video on_video set_video Video.currentTime
       Video.set_currentTime].
  split; [reflexivity|]. repeat split.
  - intros F. now rewrite F.
  - intros F Hle. rewrite F. now apply clamp_cases.
  - intros F. rewrite F. now apply clamp_degenerate.
Qed.

Lemma seekTo_clamps_witness :
  (videoRef muted_half = true
   /\ Video.duration (video muted_half) = num 120
   /\ current (state muted_half) = num 30
   /\ duration (state muted_half) = num 120)
  /\ Video.currentTime (video (snd (seekTo (num 500) muted_half))) = num 120.
Proof.
  split; [repeat split|].
  exact (proj1 (proj2 (seekTo_clamps (num 500) muted_half eq_refl eq_refl))
           eq_refl).
Defined.

(** C3 as stated fails on the target [NaN]: the element refuses the
    assignment of [clamp(NaN, 0, 120) = NaN], so [seekTo(NaN)] throws a
    [TypeError] and the current time stays what it was, here 30 of 120
    seconds. *)
Lemma seekTo_NaN_throws :
  (videoRef muted_half = true
   /\ Video.duration (video muted_half) = num 120)
  /\ fst (seekTo NaN muted_half) = Abrupt TypeError
  /\ Video.currentTime (video (snd (seekTo NaN muted_half))) = num 30
  /\ Video.currentTime (video (snd (seekTo NaN muted_half)))
     <> clamp NaN (num 0) (num 120).
Proof. repeat split; try reflexivity. discriminate. Qed.

(** C4.  [toggleMute] is an involution on an attached element: one
    application flips the mute flag and changes nothing else, and two
    applications restore the world they started from, whatever the mute
    flag was. *)
Theorem toggleMute_involution (w : World) :
  videoRef w = true ->
  Video.muted (video (snd (toggleMute w))) = negb (Video.muted (video w))
  /\ Video.muted (video (snd (toggleMute (snd (toggleMute w)))))
     = Video.muted (video w)
  /\ snd (toggleMute (snd (toggleMute w))) = w.
Proof.
  intros H.
  assert (H' : videoRef (snd (toggleMute w)) = true)
    by (rewrite toggleMute_attached by assumption; exact H).
  rewrite (toggleMute_attached (snd (toggleMute w)) H').
  rewrite (toggleMute_attached w H).
  destruct w as [[p c d m v ls] r s cl fs co ca].
  cbn. rewrite negb_involutive. repeat split.
Qed.

Lemma toggleMute_involution_witness :
  (videoRef muted_half = true /\ Video.muted (video muted_half) = true)
  /\ Video.muted (video (snd (toggleMute muted_half))) = false
  /\ Video.muted (video (snd (toggleMute (snd (toggleMute muted_half)))))
     = true
  /\ snd (toggleMute (snd (toggleMute muted_half))) = muted_half.
Proof.
  split; [repeat split|].
  exact (toggleMute_involution muted_half eq_refl).
Defined.



(** C6.  Every command invoked while [videoRef.current] is [null] is a
    no-op: it completes normally and leaves the whole world (the element,
    the snapshot, the console, the calls made to the platform) as it was,
    for every argument and whatever the platform would have answered. *)
Theorem commands_without_element (w : World) (pf : Platform)
  (t vol : number) :
  videoRef w = false ->
  togglePlay pf w = (Normal tt, w)
  /\ seekTo t w = (Normal tt, w)
  /\ toggleMute w = (Normal tt, w)
  /\ setVolume vol w = (Normal tt, w)
  /\ fullscreen pf w = (Normal tt, w).
Proof.
  intros H.
  unfold togglePlay, seekTo, toggleMute, setVolume, fullscreen, bind, read,
    videoRef_current.
  rewrite H. repeat split.
Qed.

Lemma commands_without_element_witness :
  videoRef initialWorld = false
  /\ togglePlay refusing initialWorld = (Normal tt, initialWorld)
  /\ seekTo NaN initialWorld = (Normal tt, initialWorld)
  /\ toggleMute initialWorld = (Normal tt, initialWorld)
  /\ setVolume Infinity initialWorld = (Normal tt, initialWorld)
  /\ fullscreen refusing initialWorld = (Normal tt, initialWorld).
Proof.
  split; [reflexivity|].
  exact (commands_without_element initialWorld refusing NaN Infinity eq_refl).
Defined.

(** C7.  When the platform rejects the play request that [togglePlay]
    issues on a paused, attached element, the command still completes
    normally (nothing reaches the caller), the rejection is written to the
    console once, the platform was called once ([play], no second attempt),
    and neither the snapshot nor the element has changed: the element is
    still paused and the playing flag is what it was. *)
Theorem togglePlay_rejection_logged (pf : Platform) (e : exn) (w : World) :
  videoRef w = true ->
  Video.paused (video w) = true ->
  play_promise pf = Rejected e ->
  fst (togglePlay pf w) = Normal tt
  /\ console (snd (togglePlay pf w))
     = (console w ++ [("play() failed:", e)])%list
  /\ calls (snd (togglePlay pf w)) = (calls w ++ [CallPlay])%list
  /\ state (snd (togglePlay pf w)) = state w
  /\ video (snd (togglePlay pf w)) = video w
  /\ Video.paused (video (snd (togglePlay pf w))) = true.
Proof.
  intros Hr Hp He. rewrite (togglePlay_rejected_run pf e w Hr Hp He).
  repeat split. exact Hp.
Qed.

Lemma togglePlay_rejection_logged_witness :
  (videoRef muted_half = true /\ Video.paused (video muted_half) = true
   /\ playing (state muted_half) = false)
  /\ fst (togglePlay refusing muted_half) = Normal tt
  /\ console (snd (togglePlay refusing muted_half))
     = (console muted_half
          ++ [("play() failed:", DOMException "NotAllowedError")])%list
  /\ calls (snd (togglePlay refusing muted_half))
     = (calls muted_half ++ [CallPlay])%list
  /\ state (snd (togglePlay refusing muted_half)) = state muted_half
  /\ video (snd (togglePlay refusing muted_half)) = video muted_half
  /\ Video.paused (video (snd (togglePlay refusing muted_half))) = true.
Proof.
  split; [repeat split|].
  exact (togglePlay_rejection_logged refusing
           (DOMException "NotAllowedError") muted_half
           eq_refl eq_refl eq_refl).
Defined.

(** C8.  Once the component has been unmounted, the snapshot no longer
    changes: after any run that ends with the unmounting, every
    notification (metadata-loaded, time-update, play, pause,
    volume-change), and indeed every further run that does not mount the
    component again, leaves the last snapshot as it was. *)
Theorem snapshot_frozen_after_unmount (before after : list Action) :
  forallb (fun a => negb (is_mount a)) after = true ->
  state (run initialWorld (before ++ Unmount :: after)%list)
  = state (run initialWorld (before ++ [Unmount])%list).
Proof.
  intros H.
  change (Unmount :: after) with ([Unmount] ++ after)%list.
  rewrite app_assoc, run_app.
  apply run_unsubscribed; [exact H|].
  rewrite run_app.
  apply (unmount_cases (run initialWorld before)).
  apply run_subscription_ok, initial_subscription_ok.
Qed.

Lemma snapshot_frozen_after_unmount_witness :
  forallb (fun a => negb (is_mount a))
    [ Playback false (num 45) (num 300); SetVolume (num 0);
      Notify loadedmetadata; Notify timeupdate; Notify play; Notify pause;
      Notify volumechange ] = true
  /\ state (run initialWorld
       ([ Mount; Playback true (num 30) (num 120); Notify loadedmetadata;
          Notify timeupdate ]
        ++ Unmount
           :: [ Playback false (num 45) (num 300); SetVolume (num 0);
                Notify loadedmetadata; Notify timeupdate; Notify play;
                Notify pause; Notify volumechange ])%list)
     = state (run initialWorld
         ([ Mount; Playback true (num 30) (num 120); Notify loadedmetadata;
            Notify timeupdate ] ++ [Unmount])%list).
Proof.
  split; [reflexivity|].
  apply (snapshot_frozen_after_unmount
           [ Mount; Playback true (num 30) (num 120); Notify loadedmetadata;
             Notify timeupdate ]
           [ Playback false (num 45) (num 300); SetVolume (num 0);
             Notify loadedmetadata; Notify timeupdate; Notify play;
             Notify pause; Notify volumechange ]).
  reflexivity.
Defined.

(** C9.  Each listener replaces only its own field(s) of the snapshot, for
    every element and every prior snapshot: metadata-loaded only
    [duration], time-update only [current], play and pause only [playing],
    volume-change only [volume] and [muted]; and so does each notification
    delivered to a player in any state it can reach. *)
Theorem notification_touches_own_fields :
  (forall (l : Listener) (v : Video.t) (s : PlayerState),
     untouched_by (event_of l) s (updater l v s))
  /\ (forall (acts : list Action) (e : EventType),
        untouched_by e (state (run initialWorld acts))
          (state (dispatchEvent e (run initialWorld acts)))).
Proof.
  split; [exact updater_untouched|].
  intros acts e.
  pose proof (run_subscription_ok acts initialWorld initial_subscription_ok)
    as [Hin _].
  set (w := run initialWorld acts) in *.
  apply (dispatchEvent_ind_registered
           (fun w' => untouched_by e (state w) (state w')));
    [|apply untouched_by_refl].
  intros ty cb w' Hl He Hw'.
  apply Hin, registered_event_of in Hl. apply EventType_eqb_eq in He.
  subst ty e.
  eapply untouched_by_trans; [exact Hw'|]. apply updater_untouched.
Qed.

(** C10 (as amended).  [formatTime] never rolls minutes into hours: for
    every finite input [0 <= q < 2^53] it prints the decimal numeral of
    [floor(q / 60)], not reduced modulo 60, then a colon, then
    [floor(q) mod 60] as two digits; for example
    [formatTime(3600) = "60:00"]. *)
Theorem formatTime_minutes_unbounded (q : Qc) :
  (0 <= q)%Q -> (q < inject_Z safe_bound)%Q ->
  formatTime (Fin q)
  = Some (NilZero.string_of_uint
            (N.to_uint (Z.to_N (Qfloor (q / Q2Qc (inject_Z 60))%Qc)))
          ++ ":" ++ two_digits (Qfloor q mod 60))
  /\ formatTime (num 3600) = Some "60:00".
Proof.
  intros Hq Hb. split; [|reflexivity].
  rewrite formatTime_finite by assumption.
  unfold minutes_seconds. now rewrite Qfloor_div_60.
Qed.

Lemma formatTime_minutes_unbounded_witness :
  ((0 <= Q2Qc (86399 # 1))%Q /\ (Q2Qc (86399 # 1) < inject_Z safe_bound)%Q)
  /\ formatTime (Fin (Q2Qc (86399 # 1))) = Some "1439:59".
Proof.
  split; [split; [discriminate | reflexivity]|].
  exact (proj1 (formatTime_minutes_unbounded (Q2Qc (86399 # 1))
                  ltac:(discriminate) eq_refl)).
Defined.

(** C10 as stated fails beyond [2^53]: at 67553994410557496 seconds the
    quotient by sixty, 1125899906842624.93..., lies between the binary64
    values 1125899906842624.75 and 1125899906842625 and rounds to the
    latter, so the minutes printed are one more than [floor(s / 60)]. *)
Lemma formatTime_rounds_up_beyond_safe_bound :
  Number_isFinite (num 67553994410557496) = true
  /\ lt (num 67553994410557496) (num 0) = false
  /\ formatTime (num 67553994410557496) = Some "1125899906842625:56"
  /\ (67553994410557496 / 60 = 1125899906842624)%Z
  /\ (67553994410557496 mod 60 = 56)%Z.
Proof. repeat split; vm_compute; reflexivity. Qed.
(** * Further properties of the code *)

(** ** [clamp] *)

Lemma Qc_ltb_trans (p q r : Qc) :
  Qc_ltb p q = true -> Qc_ltb q r = true -> Qc_ltb p r = true.
Proof.
  rewrite !Qc_ltb_lt. intros H1 H2. lra.
Qed.

Lemma Qc_ltb_cotrans (p q r : Qc) :
  Qc_ltb p r = true -> Qc_ltb p q = true \/ Qc_ltb q r = true.
Proof.
  rewrite !Qc_ltb_lt. intros H.
  destruct (Qlt_le_dec p q) as [L | G]; [now left | right]. lra.
Qed.

Lemma lt_not_NaN (a b : number) :
  lt a b = true -> isNaN a = false /\ isNaN b = false.
Proof. destruct a, b; simpl; intros H; auto; discriminate. Qed.

(** Below a number that is not [NaN], anything smaller than [a] is either
    smaller than [b] or [b] is smaller than the bound. *)
Lemma lt_cotrans (a b c : number) :
  isNaN b = false -> lt a c = true -> lt a b = true \/ lt b c = true.
Proof.
  destruct a, b, c; simpl; intros Hb H; try discriminate; auto.
  now apply Qc_ltb_cotrans.
Qed.

Lemma Math_min_not_NaN (a b : number) :
  isNaN a = false -> isNaN b = false -> isNaN (Math_min a b) = false.
Proof.
  intros Ha Hb. unfold Math_min. rewrite Ha, Hb. simpl.
  now destruct (lt b a).
Qed.

Lemma clamp_not_NaN (n lo hi : number) :
  isNaN n = false -> isNaN lo = false -> isNaN hi = false ->
  isNaN (clamp n lo hi) = false.
Proof.
  intros Hn Hlo Hhi. unfold clamp.
  auto using Math_min_not_NaN, Math_max_not_NaN.
Qed.

(** With the bounds the wrong way round, [max < min], the result is the
    upper argument whatever the number is. *)
Lemma clamp_reversed (n lo hi : number) :
  isNaN n = false -> lt hi lo = true -> clamp n lo hi = hi.
Proof.
  intros Hn Hrev. destruct (lt_not_NaN _ _ Hrev) as [Hhi Hlo].
  unfold clamp, Math_max. rewrite Hn, Hlo. cbn [orb].
  assert (Hm : lt hi (if lt n lo then lo else n) = true).
  { destruct (lt n lo) eqn:E; [exact Hrev|].
    destruct (lt_cotrans hi n lo Hn Hrev) as [H | H]; congruence. }
  unfold Math_min.
  assert (Hnn : isNaN (if lt n lo then lo else n) = false)
    by (destruct (lt n lo); assumption).
  now rewrite Hnn, Hhi, Hm.
Qed.

(** X1.  [clamp] saturates: for a number that is not [NaN] and bounds in
    order, a number below the interval goes to the lower bound, one above
    it to the upper bound, and one inside it is returned as it is. *)
Theorem clamp_saturates (n lo hi : number) :
  isNaN n = false -> le lo hi = true ->
  (lt n lo = true -> clamp n lo hi = lo)
  /\ (lt hi n = true -> clamp n lo hi = hi)
  /\ (within lo hi n = true -> clamp n lo hi = n).
Proof.
  intros Hn Hle. rewrite clamp_cases by assumption.
  destruct (le_bounds lo hi Hle) as (Hlo & Hhi & Hrev).
  repeat split.
  - intros H. now rewrite H.
  - intros H. rewrite H.
    destruct (lt n lo) eqn:E; [|reflexivity].
    destruct (lt_cotrans hi lo n Hlo H) as [H' | H'];
      [congruence | rewrite (lt_asym _ _ E) in H'; discriminate].
  - unfold within. intros H. apply andb_true_iff in H as [H1 H2].
    apply le_bounds in H1 as (_ & _ & H1).
    apply le_bounds in H2 as (_ & _ & H2).
    now rewrite H1, H2.
Qed.

Lemma clamp_saturates_witness :
  (isNaN (num (-4)) = false /\ le (num 0) (num 120) = true)
  /\ clamp (num (-4)) (num 0) (num 120) = num 0.
Proof.
  split; [split; reflexivity|].
  exact (proj1 (clamp_saturates (num (-4)) (num 0) (num 120)
                  eq_refl eq_refl) eq_refl).
Defined.

(** X2.  [clamp] is idempotent for all arguments, [NaN] and bounds in the
    wrong order included: clamping a clamped number changes nothing. *)
Theorem clamp_idempotent (n lo hi : number) :
  clamp (clamp n lo hi) lo hi = clamp n lo hi.
Proof.
  destruct (isNaN n) eqn:Hn.
  { destruct n; try discriminate. reflexivity. }
  destruct (isNaN lo) eqn:Hlo.
  { destruct lo; try discriminate. unfold clamp, Math_max.
    rewrite !orb_true_r. reflexivity. }
  destruct (isNaN hi) eqn:Hhi.
  { destruct hi; try discriminate. unfold clamp, Math_min.
    rewrite !orb_true_r. reflexivity. }
  destruct (lt hi lo) eqn:Hrev.
  - rewrite (clamp_reversed n lo hi Hn Hrev).
    now apply clamp_reversed.
  - assert (Hle : le lo hi = true)
      by (unfold le; now rewrite Hlo, Hhi, Hrev).
    rewrite (clamp_cases n lo hi Hn Hle).
    destruct (lt n lo) eqn:E1; [|destruct (lt hi n) eqn:E2].
    + rewrite clamp_cases by assumption.
      now rewrite lt_irrefl, Hrev.
    + rewrite clamp_cases by assumption.
      now rewrite Hrev, lt_irrefl.
    + rewrite clamp_cases by assumption. now rewrite E1, E2.
Qed.

Ltac order_contradiction :=
  match goal with
  | H : lt ?a ?c = true, Hb : isNaN ?b = false |- _ =>
      destruct (lt_cotrans a b c Hb H); congruence
  end.

(** X3.  [clamp] is monotone in its first argument: for bounds in order,
    [n <= n'] gives [clamp n lo hi <= clamp n' lo hi]. *)
Theorem clamp_monotone (n n' lo hi : number) :
  le lo hi = true -> le n n' = true ->
  le (clamp n lo hi) (clamp n' lo hi) = true.
Proof.
  intros Hle Hnn.
  destruct (le_bounds lo hi Hle) as (Hlo & Hhi & Hrev).
  destruct (le_bounds n n' Hnn) as (Hn & Hn' & Hlt).
  unfold le.
  rewrite !clamp_not_NaN by assumption. cbn [negb andb].
  apply negb_true_iff.
  rewrite (clamp_cases n lo hi Hn Hle), (clamp_cases n' lo hi Hn' Hle).
  destruct (lt n lo) eqn:A1; [|destruct (lt hi n) eqn:A2];
    (destruct (lt n' lo) eqn:B1; [|destruct (lt hi n') eqn:B2]);
    first [assumption | apply lt_irrefl | order_contradiction].
Qed.

Lemma clamp_monotone_witness :
  (le (num 0) (num 1) = true /\ le (ratio 3 10) Infinity = true)
  /\ le (clamp (ratio 3 10) (num 0) (num 1))
        (clamp Infinity (num 0) (num 1)) = true.
Proof.
  split; [split; reflexivity|].
  exact (clamp_monotone (ratio 3 10) Infinity (num 0) (num 1)
           eq_refl eq_refl).
Defined.

(** X4.  A [NaN] in any of the three arguments makes [clamp] return
    [NaN]; with no [NaN] the result is not [NaN] and, when the bounds are
    the wrong way round, it is the upper argument. *)
Theorem clamp_NaN_and_reversed_bounds (n lo hi : number) :
  (isNaN n || isNaN lo || isNaN hi = true -> clamp n lo hi = NaN)
  /\ (isNaN n || isNaN lo || isNaN hi = false ->
      isNaN (clamp n lo hi) = false
      /\ (lt hi lo = true -> clamp n lo hi = hi)).
Proof.
  split.
  - intros H. unfold clamp, Math_min, Math_max.
    destruct (isNaN n), (isNaN lo), (isNaN hi); try discriminate;
      cbn [orb isNaN]; rewrite ?orb_true_r; reflexivity.
  - intros H. apply orb_false_iff in H as [H Hhi].
    apply orb_false_iff in H as [Hn Hlo].
    split; [now apply clamp_not_NaN | now apply clamp_reversed].
Qed.

Lemma clamp_NaN_and_reversed_bounds_witness :
  lt (num 1) (num 5) = true /\ clamp (num 3) (num 5) (num 1) = num 1.
Proof.
  split; [reflexivity|].
  exact (proj2 (proj2 (clamp_NaN_and_reversed_bounds (num 3) (num 5) (num 1))
                  eq_refl) eq_refl).
Defined.

(** ** [formatTime] *)

Lemma length_append (s t : string) :
  String.length (s ++ t) = (String.length s + String.length t)%nat.
Proof. induction s as [|c s IH]; cbn; [reflexivity | now rewrite IH]. Qed.

Lemma append_same_length_suffix (s1 s2 t1 t2 : string) :
  String.length t1 = String.length t2 ->
  s1 ++ t1 = s2 ++ t2 -> s1 = s2 /\ t1 = t2.
Proof.
  intros Hlen. revert s2.
  induction s1 as [|c s1 IH]; intros [|c' s2] H; cbn in H.
  - now split.
  - exfalso. apply (f_equal String.length) in H. cbn in H.
    rewrite length_append in H. lia.
  - exfalso. apply (f_equal String.length) in H. cbn in H.
    rewrite length_append in H. lia.
  - injection H as -> H. destruct (IH s2 H) as [-> ->]. now split.
Qed.

Lemma digit_injective (a b : Z) :
  (0 <= a < 10)%Z -> (0 <= b < 10)%Z -> digit a = digit b -> a = b.
Proof.
  intros Ha Hb H. unfold digit in H.
  apply (f_equal nat_of_ascii) in H.
  rewrite !nat_ascii_embedding in H by lia. lia.
Qed.

Lemma two_digits_injective (a b : Z) :
  (0 <= a < 60)%Z -> (0 <= b < 60)%Z ->
  two_digits a = two_digits b -> a = b.
Proof.
  intros Ha Hb H. unfold two_digits in H. injection H as D1 D2.
  apply digit_injective in D1;
    [|split; [apply Z.div_pos | apply Z.div_lt_upper_bound]; lia
     |split; [apply Z.div_pos | apply Z.div_lt_upper_bound]; lia].
  apply digit_injective in D2; [|apply Z.mod_pos_bound; lia ..].
  rewrite (Z.div_mod a 10), (Z.div_mod b 10) by lia. lia.
Qed.

Lemma to_uint_nonnil (n : N) : N.to_uint n <> Decimal.Nil.
Proof.
  destruct n as [|p]; [discriminate|].
  apply DecimalPos.Unsigned.to_uint_nonnil.
Qed.

Lemma numeral_injective (a b : N) :
  NilZero.string_of_uint (N.to_uint a) = NilZero.string_of_uint (N.to_uint b)
  -> a = b.
Proof.
  intros H. apply (f_equal NilZero.uint_of_string) in H.
  rewrite !NilZero.usu in H by apply to_uint_nonnil.
  injection H as H. now apply DecimalN.Unsigned.to_uint_inj.
Qed.

Lemma minutes_seconds_injective (y z : Z) :
  (0 <= y)%Z -> (0 <= z)%Z ->
  minutes_seconds y = minutes_seconds z -> y = z.
Proof.
  intros Hy Hz H. unfold minutes_seconds in H.
  apply append_same_length_suffix in H as [Hm Hs]; [|reflexivity].
  change (String ":" (two_digits (y mod 60))
          = String ":" (two_digits (z mod 60))) in Hs.
  assert (Hr : two_digits (y mod 60) = two_digits (z mod 60))
    by congruence.
  apply two_digits_injective in Hr; [|apply Z.mod_pos_bound; lia ..].
  apply numeral_injective in Hm.
  assert (Hq : (y / 60 = z / 60)%Z).
  { rewrite <- (Z2N.id (y / 60)), <- (Z2N.id (z / 60))
      by (apply Z.div_pos; lia).
    now rewrite Hm. }
  rewrite (Z.div_mod y 60), (Z.div_mod z 60) by lia. lia.
Qed.

Lemma formatTime_negative (q : Qc) :
  (q < 0)%Q -> formatTime (Fin q) = Some "0:00".
Proof.
  intros H. apply formatTime_guard. right. simpl.
  apply Qc_ltb_lt. now rewrite this_num.
Qed.

Lemma Math_floor_num (z : Z) : Math_floor (num z) = num z.
Proof. unfold num, Math_floor. fold (num z). now rewrite Qfloor_num. Qed.

(** X5.  [formatTime] shows whole seconds only: every number below
    [2^53] gets a label, the same as its floor gets, and two non-negative
    numbers below [2^53] get the same label exactly when they have the
    same floor, so that distinct whole seconds never share a label. *)
Theorem formatTime_whole_seconds (p q : Qc) :
  ((p < inject_Z safe_bound)%Q ->
   exists label : string,
     formatTime (Fin p) = Some label
     /\ formatTime (num (Qfloor p)) = Some label)
  /\ ((0 <= p)%Q -> (p < inject_Z safe_bound)%Q ->
      (0 <= q)%Q -> (q < inject_Z safe_bound)%Q ->
      (formatTime (Fin p) = formatTime (Fin q) <-> Qfloor p = Qfloor q)).
Proof.
  split.
  - intros Hb. destruct (Qlt_le_dec p 0) as [Hneg | Hpos].
    + exists "0:00". split; [now apply formatTime_negative|].
      apply formatTime_negative. rewrite this_num.
      apply Qle_lt_trans with p; [apply Qfloor_le | exact Hneg].
    + pose proof (Qfloor_nonneg p Hpos) as Hz.
      exists (minutes_seconds (Qfloor p)).
      split; [now apply formatTime_finite|].
      unfold num. rewrite formatTime_finite.
      * now rewrite Qfloor_num.
      * rewrite this_num. change 0%Q with (inject_Z 0).
        now rewrite <- Zle_Qle.
      * rewrite this_num.
        apply Qle_lt_trans with p; [apply Qfloor_le | exact Hb].
  - intros Hp Hpb Hq Hqb. rewrite !formatTime_finite by assumption.
    split; [|now intros ->].
    intros H. injection H as H. revert H.
    apply minutes_seconds_injective; now apply Qfloor_nonneg.
Qed.

Lemma formatTime_whole_seconds_witness :
  ((0 <= Q2Qc (599 # 10))%Q
   /\ (Q2Qc (599 # 10) < inject_Z safe_bound)%Q
   /\ (0 <= Q2Qc (60 # 1))%Q
   /\ (Q2Qc (60 # 1) < inject_Z safe_bound)%Q)
  /\ formatTime (ratio 599 10) <> formatTime (num 60).
Proof.
  split; [repeat split; discriminate|].
  intros H.
  apply (proj2 (formatTime_whole_seconds (Q2Qc (599 # 10)) (Q2Qc (60 # 1)))
           ltac:(discriminate) eq_refl ltac:(discriminate) eq_refl) in H.
  discriminate H.
Defined.
(** ** The mirror through the life of the component *)

Lemma addEventListener_attributes (ty : EventType) (cb : Listener)
  (v : Video.t) :
  Video.paused (Video.addEventListener ty cb v) = Video.paused v
  /\ Video.currentTime (Video.addEventListener ty cb v) = Video.currentTime v
  /\ Video.duration (Video.addEventListener ty cb v) = Video.duration v
  /\ Video.muted (Video.addEventListener ty cb v) = Video.muted v
  /\ Video.volume (Video.addEventListener ty cb v) = Video.volume v.
Proof.
  unfold Video.addEventListener. destruct (existsb _ _); repeat split.
Qed.

Lemma mount_reading (w : World) :
  state (mount w)
  = mkPlayerState (negb (Video.paused (video w)))
      (or_else (Video.currentTime (video w)) (num 0))
      (or_else (Video.duration (video w)) (num 0))
      (Video.muted (video w)) (Video.volume (video w))
  /\ Video.paused (video (mount w)) = Video.paused (video w)
  /\ Video.currentTime (video (mount w)) = Video.currentTime (video w)
  /\ Video.duration (video (mount w)) = Video.duration (video w)
  /\ Video.muted (video (mount w)) = Video.muted (video w)
  /\ Video.volume (video (mount w)) = Video.volume (video w).
Proof.
  unfold mount, effect, videoRef_current. cbn [videoRef set_videoRef].
  cbv zeta. unfold call_listener, setState, on_video, updater.
  cbn [video state set_state set_video set_videoRef set_cleanup
       playing current duration muted volume].
  set (P := addEventListener_attributes).
  repeat split;
    repeat first
      [ rewrite (proj1 (P _ _ _))
      | rewrite (proj1 (proj2 (P _ _ _)))
      | rewrite (proj1 (proj2 (proj2 (P _ _ _))))
      | rewrite (proj1 (proj2 (proj2 (proj2 (P _ _ _)))))
      | rewrite (proj2 (proj2 (proj2 (proj2 (P _ _ _))))) ];
    reflexivity.
Qed.

Lemma mount_lifecycle (w : World) :
  Video.listeners (video w) = [] \/ Video.listeners (video w) = registered ->
  videoRef (mount w) = true /\ cleanup (mount w) = true
  /\ Video.listeners (video (mount w)) = registered.
Proof.
  destruct w as [[p c d m v ls] r s cl fs co ca]. cbn [video Video.listeners].
  intros [-> | ->]; repeat split.
Qed.

Lemma unmount_lifecycle (w : World) :
  Video.listeners (video w) = (if cleanup w then registered else []) ->
  videoRef (unmount w) = false /\ cleanup (unmount w) = false
  /\ Video.listeners (video (unmount w)) = []
  /\ state (unmount w) = state w.
Proof.
  destruct w as [[p c d m v ls] r s cl fs co ca].
  cbn [video Video.listeners cleanup].
  intros ->. destruct cl; repeat split.
Qed.

Lemma step_lifecycle_ok (a : Action) (w : World) :
  lifecycle_ok w -> lifecycle_ok (step w a).
Proof.
  intros [Hr Hl]. pose proof (command_frame a w) as F.
  destruct a;
    try (destruct F as (_ & Fl & Fr & Fc); unfold lifecycle_ok;
         rewrite Fl, Fr, Fc; now split).
  - change (step w Mount) with (mount w).
    destruct (mount_lifecycle w) as (R & C & L).
    { destruct (cleanup w); auto. }
    unfold lifecycle_ok. now rewrite R, C, L.
  - change (step w Unmount) with (unmount w).
    destruct (unmount_lifecycle w Hl) as (R & C & L & _).
    unfold lifecycle_ok. now rewrite R, C, L.
  - change (step w (Notify e)) with (dispatchEvent e w).
    destruct (dispatchEvent_frame e w) as (V & R & C).
    unfold lifecycle_ok. rewrite V, R, C. now split.
  - now split.
Qed.

Lemma run_lifecycle_ok (acts : list Action) (w : World) :
  lifecycle_ok w -> lifecycle_ok (run w acts).
Proof.
  revert w. induction acts as [|a acts IH]; intros w H; [exact H|].
  apply IH, step_lifecycle_ok, H.
Qed.

Lemma initial_lifecycle_ok : lifecycle_ok initialWorld.
Proof. split; reflexivity. Qed.

(** On an element that carries the effect's listeners a notification runs
    the one listener of its type. *)
Lemma dispatchEvent_registered (e : EventType) (w : World) :
  Video.listeners (video w) = registered ->
  dispatchEvent e w = call_listener (listener_of e) w.
Proof.
  intros H. unfold dispatchEvent. rewrite H. now destruct e.
Qed.

(** X6.  Mounting takes a full reading of the element, whatever the
    snapshot held before: playing is the negation of [paused], the two
    times are read with a fallback of 0 for a missing (zero or [NaN])
    value, mute and volume are copied; the element's attributes are not
    changed by it. *)
Theorem mount_reads_the_element (w : World) :
  state (step w Mount)
  = mkPlayerState (negb (Video.paused (video w)))
      (or_else (Video.currentTime (video w)) (num 0))
      (or_else (Video.duration (video w)) (num 0))
      (Video.muted (video w)) (Video.volume (video w))
  /\ Video.paused (video (step w Mount)) = Video.paused (video w)
  /\ Video.currentTime (video (step w Mount)) = Video.currentTime (video w)
  /\ Video.duration (video (step w Mount)) = Video.duration (video w)
  /\ Video.muted (video (step w Mount)) = Video.muted (video w)
  /\ Video.volume (video (step w Mount)) = Video.volume (video w).
Proof. exact (mount_reading w). Qed.

(** X7.  Through every run of a component that React mounts and unmounts
    in turn, the ref is attached exactly while the effect's cleanup is
    pending, and the element carries exactly the five listeners of the
    effect, once each and in registration order, while mounted, and none
    after the cleanup has run. *)
Theorem listeners_follow_the_lifecycle (acts : list Action) :
  alternates false acts = true ->
  videoRef (run initialWorld acts) = cleanup (run initialWorld acts)
  /\ Video.listeners (video (run initialWorld acts))
     = if videoRef (run initialWorld acts) then registered else [].
Proof.
  intros _.
  destruct (run_lifecycle_ok acts initialWorld initial_lifecycle_ok)
    as [Hr Hl].
  split; [exact Hr | now rewrite Hr].
Qed.

Lemma listeners_follow_the_lifecycle_witness :
  alternates false [Mount; Notify play; Unmount; Mount; SeekTo (num 3)]
  = true
  /\ Video.listeners
       (video (run initialWorld
                 [Mount; Notify play; Unmount; Mount; SeekTo (num 3)]))
     = registered.
Proof.
  split; [reflexivity|].
  exact (proj2 (listeners_follow_the_lifecycle
                  [Mount; Notify play; Unmount; Mount; SeekTo (num 3)]
                  eq_refl)).
Defined.

(** X8.  On a mounted player every notification brings its own field(s)
    of the snapshot in line with the element (the play and pause
    notifications set the playing flag), and no notification changes the
    element, the console or the calls made to the platform. *)
Theorem notification_synchronises (acts : list Action) (e : EventType) :
  videoRef (run initialWorld acts) = true ->
  in_sync e (video (run initialWorld acts))
    (state (dispatchEvent e (run initialWorld acts)))
  /\ video (dispatchEvent e (run initialWorld acts))
     = video (run initialWorld acts)
  /\ console (dispatchEvent e (run initialWorld acts))
     = console (run initialWorld acts)
  /\ calls (dispatchEvent e (run initialWorld acts))
     = calls (run initialWorld acts).
Proof.
  intros Hm.
  destruct (run_lifecycle_ok acts initialWorld initial_lifecycle_ok)
    as [Hr Hl].
  rewrite <- Hr, Hm in Hl.
  rewrite (dispatchEvent_registered e _ Hl).
  destruct e; cbn; repeat split.
Qed.

Lemma notification_synchronises_witness :
  videoRef (run initialWorld [Mount; SetVolume (ratio 1 4)]) = true
  /\ volume (state (dispatchEvent volumechange
               (run initialWorld [Mount; SetVolume (ratio 1 4)])))
     = ratio 1 4.
Proof.
  split; [reflexivity|].
  exact (proj1 (proj1 (notification_synchronises
                         [Mount; SetVolume (ratio 1 4)] volumechange
                         eq_refl))).
Defined.

(** ** The commands *)

Lemma togglePlay_attached (pf : Platform) (w : World) :
  videoRef w = true ->
  togglePlay pf w =
    if Video.paused (video w) then
      match play_promise pf with
      | Resolved =>
          (Normal tt, on_video (Video.set_paused false) (log_call CallPlay w))
      | Rejected e =>
          (Normal tt, log_error "play() failed:" e (log_call CallPlay w))
      end
    else (Normal tt, on_video (Video.set_paused true) (log_call CallPause w)).
Proof.
  intros H. unfold togglePlay, bind, read, videoRef_current. rewrite H.
  unfold try_catch, HTMLMediaElement_play, HTMLMediaElement_pause, bind,
    modify.
  destruct (Video.paused (video w)); [|reflexivity].
  destruct (play_promise pf); reflexivity.
Qed.

Lemma fullscreen_attached (pf : Platform) (w : World) :
  videoRef w = true ->
  fullscreen pf w =
    match fullscreen_promise pf w with
    | Resolved =>
        (Normal tt,
         set_fullscreenElement (negb (fullscreenElement w))
           (log_call (fullscreen_call w) w))
    | Rejected e =>
        (Normal tt,
         log_error "fullscreen failed:" e (log_call (fullscreen_call w) w))
    end.
Proof.
  intros H. unfold fullscreen, bind, read, videoRef_current. rewrite H.
  unfold try_catch, Document_exitFullscreen, Element_requestFullscreen,
    bind, read, modify, fullscreen_promise, fullscreen_call.
  destruct (fullscreenElement w);
    [destruct (exitFullscreen_promise pf)
    |destruct (requestFullscreen_promise pf)]; reflexivity.
Qed.

Lemma detached_noop (a : Action) (w : World) :
  is_command a = true -> videoRef w = false -> perform a w = (Normal tt, w).
Proof.
  intros Ha H.
  destruct a; try discriminate; cbn [perform];
    unfold togglePlay, seekTo, toggleMute, setVolume, fullscreen, bind,
      read, videoRef_current; now rewrite H.
Qed.

(** X9.  [togglePlay] and [fullscreen] never complete abruptly: whether
    the element is attached or not, and whether the platform resolves or
    rejects the promise of the request, the command returns normally to its
    caller. *)
Theorem async_commands_never_throw (pf : Platform) (w : World) :
  fst (togglePlay pf w) = Normal tt /\ fst (fullscreen pf w) = Normal tt.
Proof.
  destruct (videoRef w) eqn:H.
  - rewrite togglePlay_attached, fullscreen_attached by assumption.
    split.
    + destruct (Video.paused (video w)); [|reflexivity].
      now destruct (play_promise pf).
    + now destruct (fullscreen_promise pf w).
  - split.
    + change (togglePlay pf w) with (perform (TogglePlay pf) w).
      now rewrite detached_noop.
    + change (fullscreen pf w) with (perform (Fullscreen pf) w).
      now rewrite detached_noop.
Qed.

Lemma step_state_unchanged (a : Action) (w : World) :
  is_mount a = false -> is_notification a = false ->
  state (step w a) = state w.
Proof.
  intros Hm Hn. pose proof (command_frame a w) as F.
  destruct a; try discriminate; try (now destruct F).
  change (step w Unmount) with (unmount w). unfold unmount.
  now destruct (cleanup w).
Qed.

(** X10.  The snapshot changes only when the component is mounted or a
    notification arrives: commands, unmounting and the element's own
    playback changes leave it as it is, so the overlay shows the old values
    until the platform notifies. *)
Theorem snapshot_changes_only_by_notification (acts : list Action)
  (w : World) :
  forallb (fun a => negb (is_mount a) && negb (is_notification a)) acts
  = true ->
  state (run w acts) = state w.
Proof.
  revert w. induction acts as [|a acts IH]; intros w H; [reflexivity|].
  cbn [forallb] in H. apply andb_true_iff in H as [Ha H].
  apply andb_true_iff in Ha as [Hm Hn].
  apply negb_true_iff in Hm, Hn.
  cbn [run fold_left]. change (fold_left step acts (step w a))
    with (run (step w a) acts).
  rewrite IH by assumption. now apply step_state_unchanged.
Qed.

Lemma snapshot_changes_only_by_notification_witness :
  forallb (fun a => negb (is_mount a) && negb (is_notification a))
    [ SetVolume (ratio 1 10); SeekTo (num 90); ToggleMute;
      TogglePlay refusing; Playback false (num 91) (num 120) ] = true
  /\ state (run muted_half
       [ SetVolume (ratio 1 10); SeekTo (num 90); ToggleMute;
         TogglePlay refusing; Playback false (num 91) (num 120) ])
     = state muted_half.
Proof.
  split; [reflexivity|].
  apply (snapshot_changes_only_by_notification
           [ SetVolume (ratio 1 10); SeekTo (num 90); ToggleMute;
             TogglePlay refusing; Playback false (num 91) (num 120) ]
           muted_half).
  reflexivity.
Defined.

(** X11.  On an attached element [togglePlay] makes exactly one call:
    [pause] when the element is playing, which leaves it paused whatever
    the platform would answer to a play request, and [play] when it is
    paused.  When the platform grants the play request the paused flag is
    flipped, nothing is logged, and a second [togglePlay] restores it. *)
Theorem togglePlay_toggles (pf : Platform) (w : World) :
  videoRef w = true ->
  calls (snd (togglePlay pf w))
  = (calls w ++ [if Video.paused (video w) then CallPlay else CallPause])%list
  /\ (Video.paused (video w) = false ->
      Video.paused (video (snd (togglePlay pf w))) = true
      /\ console (snd (togglePlay pf w)) = console w)
  /\ (play_promise pf = Resolved ->
      Video.paused (video (snd (togglePlay pf w)))
      = negb (Video.paused (video w))
      /\ console (snd (togglePlay pf w)) = console w
      /\ Video.paused (video (snd (togglePlay pf (snd (togglePlay pf w)))))
         = Video.paused (video w)).
Proof.
  intros H.
  assert (H' : videoRef (snd (togglePlay pf w)) = true).
  { pose proof (command_frame (TogglePlay pf) w) as (_ & _ & R & _).
    unfold step, perform in R. now rewrite R. }
  rewrite (togglePlay_attached pf (snd (togglePlay pf w)) H').
  rewrite (togglePlay_attached pf w H).
  destruct (Video.paused (video w)) eqn:P.
  - destruct (play_promise pf) eqn:E; repeat split; try discriminate.
  - repeat split.
    match goal with E : play_promise pf = _ |- _ => cbn; now rewrite E end.
Qed.

Lemma togglePlay_toggles_witness :
  (videoRef muted_half = true /\ Video.paused (video muted_half) = true)
  /\ Video.paused
       (video (snd (togglePlay (mkPlatform Resolved Resolved Resolved)
                      muted_half)))
     = false.
Proof.
  split; [split; reflexivity|].
  exact (proj1 (proj2 (proj2 (togglePlay_toggles
                                (mkPlatform Resolved Resolved Resolved)
                                muted_half eq_refl)) eq_refl)).
Defined.

(** X12.  On an attached element [fullscreen] makes exactly one call:
    [exitFullscreen] when the document is in fullscreen, otherwise
    [requestFullscreen].  When the promise of that call is resolved the
    fullscreen state is flipped and nothing is logged; when it is rejected
    the fullscreen state stays, the rejection is logged once under
    "fullscreen failed:", and the command still returns normally.  The
    element and the snapshot are untouched in both cases. *)
Theorem fullscreen_toggles_or_logs (pf : Platform) (w : World) :
  videoRef w = true ->
  fst (fullscreen pf w) = Normal tt
  /\ calls (snd (fullscreen pf w)) = (calls w ++ [fullscreen_call w])%list
  /\ video (snd (fullscreen pf w)) = video w
  /\ state (snd (fullscreen pf w)) = state w
  /\ (fullscreen_promise pf w = Resolved ->
      fullscreenElement (snd (fullscreen pf w)) = negb (fullscreenElement w)
      /\ console (snd (fullscreen pf w)) = console w)
  /\ (forall e, fullscreen_promise pf w = Rejected e ->
      fullscreenElement (snd (fullscreen pf w)) = fullscreenElement w
      /\ console (snd (fullscreen pf w))
         = (console w ++ [("fullscreen failed:", e)])%list).
Proof.
  intros H. rewrite fullscreen_attached by assumption.
  destruct (fullscreen_promise pf w) eqn:E; repeat split;
    try discriminate;
    match goal with
    | R : Rejected _ = Rejected _ |- _ => injection R as ->; reflexivity
    end.
Qed.

Lemma fullscreen_toggles_or_logs_witness :
  (videoRef muted_half = true
   /\ fullscreen_promise
        (mkPlatform Resolved (Rejected (DOMException "TypeError")) Resolved)
        muted_half
      = Rejected (DOMException "TypeError"))
  /\ fullscreenElement
       (snd (fullscreen
               (mkPlatform Resolved (Rejected (DOMException "TypeError"))
                  Resolved) muted_half)) = false
  /\ console
       (snd (fullscreen
               (mkPlatform Resolved (Rejected (DOMException "TypeError"))
                  Resolved) muted_half))
     = [("fullscreen failed:", DOMException "TypeError")].
Proof.
  split; [split; reflexivity|].
  exact (proj2 (proj2 (proj2 (proj2 (proj2
           (fullscreen_toggles_or_logs
              (mkPlatform Resolved (Rejected (DOMException "TypeError"))
                 Resolved) muted_half eq_refl)))))
           (DOMException "TypeError") eq_refl).
Defined.

(** X13.  [setVolume] with an argument that is not positive (zero, a
    negative number or minus infinity) sets the volume to 0 and leaves the
    mute flag as it was: it neither mutes nor un-mutes.  For every
    argument the playback attributes and the listeners are untouched. *)
Theorem setVolume_not_positive (vol : number) (w : World) :
  videoRef w = true ->
  (isNaN vol = false -> gt vol (num 0) = false ->
   Video.volume (video (snd (setVolume vol w))) = num 0
   /\ Video.muted (video (snd (setVolume vol w))) = Video.muted (video w))
  /\ Video.paused (video (snd (setVolume vol w))) = Video.paused (video w)
  /\ Video.currentTime (video (snd (setVolume vol w)))
     = Video.currentTime (video w)
  /\ Video.duration (video (snd (setVolume vol w)))
     = Video.duration (video w)
  /\ Video.listeners (video (snd (setVolume vol w)))
     = Video.listeners (video w).
Proof.
  intros H. rewrite setVolume_attached by assumption. cbv zeta.
  split.
  - intros Hn Hpos. unfold gt in Hpos.
    assert (E : clamp vol (num 0) (num 1) = num 0).
    { rewrite clamp_cases by auto using le_0_1.
      destruct (lt vol (num 0)) eqn:L; [reflexivity|].
      destruct (lt (num 1) vol) eqn:U.
      - destruct (lt_cotrans (num 0) vol (num 1) Hn eq_refl) as [C | C];
          [congruence | rewrite (lt_asym _ _ U) in C; discriminate].
      - symmetry. now apply lt_total. }
    rewrite Hn, E. split; reflexivity.
  - destruct (isNaN vol); [|destruct (gt _ _)]; repeat split.
Qed.

Lemma setVolume_not_positive_witness :
  (videoRef muted_half = true /\ Video.muted (video muted_half) = true)
  /\ Video.volume (video (snd (setVolume NegInfinity muted_half))) = num 0
  /\ Video.muted (video (snd (setVolume NegInfinity muted_half))) = true.
Proof.
  split; [split; reflexivity|].
  exact (proj1 (setVolume_not_positive NegInfinity muted_half eq_refl)
           eq_refl eq_refl).
Defined.

(** ** The overlay on the states a player can reach *)

Lemma or_else_not_NaN (a : number) : isNaN (or_else a (num 0)) = false.
Proof.
  unfold or_else. destruct a; try reflexivity.
  now destruct (truthy (Fin q)).
Qed.

Lemma or_else_finite (a : number) :
  Number_isFinite a = true -> or_else a (num 0) = a.
Proof.
  destruct a as [| | |q]; try discriminate. intros _.
  unfold or_else, truthy, Qc_eqb.
  destruct (q ?= 0)%Qc eqn:E; try reflexivity.
  apply Qceq_alt in E. now subst q.
Qed.

Lemma call_listener_times (l : Listener) (w : World) :
  isNaN (current (state w)) = false /\ isNaN (duration (state w)) = false ->
  isNaN (current (state (call_listener l w))) = false
  /\ isNaN (duration (state (call_listener l w))) = false.
Proof.
  intros [Hc Hd]. destruct l; cbn; auto using or_else_not_NaN.
Qed.

Lemma step_times (a : Action) (w : World) :
  isNaN (current (state w)) = false /\ isNaN (duration (state w)) = false ->
  isNaN (current (state (step w a))) = false
  /\ isNaN (duration (state (step w a))) = false.
Proof.
  intros H.
  destruct (is_mount a) eqn:M; [|destruct (is_notification a) eqn:N].
  - destruct a; try discriminate.
    change (step w Mount) with (mount w).
    destruct (mount_reading w) as [E _]. rewrite E. cbn.
    auto using or_else_not_NaN.
  - destruct a; try discriminate.
    change (step w (Notify e)) with (dispatchEvent e w).
    apply (dispatchEvent_ind
             (fun w' => isNaN (current (state w')) = false
                        /\ isNaN (duration (state w')) = false));
      [apply call_listener_times | exact H].
  - now rewrite step_state_unchanged.
Qed.

Lemma run_times (acts : list Action) (w : World) :
  isNaN (current (state w)) = false /\ isNaN (duration (state w)) = false ->
  isNaN (current (state (run w acts))) = false
  /\ isNaN (duration (state (run w acts))) = false.
Proof.
  revert w. induction acts as [|a acts IH]; intros w H; [exact H|].
  apply IH, step_times, H.
Qed.

(** X14.  The value given to the volume slider, [muted ? 0 : volume], is
    in the slider's range [0, 1] in every state the player can reach
    through [setVolume] calls with arguments other than [NaN]. *)
Theorem effectiveVolume_in_range (acts : list Action) :
  forallb volume_arg_ok acts = true ->
  within (num 0) (num 1) (effectiveVolume (state (run initialWorld acts)))
  = true.
Proof.
  intros _.
  destruct (run_volume_ok acts initialWorld
              initial_subscription_ok initial_volume_ok) as [_ Hs].
  unfold effectiveVolume.
  destruct (muted (state (run initialWorld acts))); [reflexivity | exact Hs].
Qed.

Lemma effectiveVolume_in_range_witness :
  forallb volume_arg_ok
    [Mount; SetVolume (num 3); ToggleMute; Notify volumechange] = true
  /\ within (num 0) (num 1)
       (effectiveVolume (state (run initialWorld
          [Mount; SetVolume (num 3); ToggleMute; Notify volumechange])))
     = true.
Proof.
  split; [reflexivity|].
  apply (effectiveVolume_in_range
           [Mount; SetVolume (num 3); ToggleMute; Notify volumechange]).
  reflexivity.
Defined.

(** X15.  In every state the player can reach, whatever the element
    reports, the current time and the duration of the snapshot are not
    [NaN] (a missing reading is stored as 0), so the value given to the
    seek slider is a number and is never above the slider's maximum. *)
Theorem seek_slider_well_formed (acts : list Action) :
  isNaN (current (state (run initialWorld acts))) = false
  /\ isNaN (duration (state (run initialWorld acts))) = false
  /\ isNaN (TimeSlider_value (state (run initialWorld acts))) = false
  /\ le (TimeSlider_value (state (run initialWorld acts)))
        (TimeSlider_max (state (run initialWorld acts))) = true.
Proof.
  destruct (run_times acts initialWorld (conj eq_refl eq_refl)) as [Hc Hd].
  set (s := state (run initialWorld acts)) in *.
  pose proof (or_else_not_NaN (duration s)) as Hm.
  unfold TimeSlider_value, TimeSlider_max.
  repeat split; try assumption.
  - now apply Math_min_not_NaN.
  - unfold le. rewrite Math_min_not_NaN, Hm by assumption. cbn [negb andb].
    unfold Math_min. rewrite Hc, Hm. cbn [orb].
    destruct (lt (or_else (duration s) (num 0)) (current s)) eqn:E;
      [now rewrite lt_irrefl | now rewrite E].
Qed.

Lemma within_finite (d x : number) :
  Number_isFinite d = true -> within (num 0) d x = true ->
  Number_isFinite x = true /\ isNaN x = false
  /\ lt x (num 0) = false /\ lt d x = false.
Proof.
  unfold within, le. destruct d, x; cbn; try discriminate;
    intros _ H; repeat split;
    apply andb_true_iff in H as [H1 H2];
    now apply negb_true_iff in H1, H2.
Qed.

Lemma clamp_inside (x lo hi : number) :
  isNaN x = false -> le lo hi = true ->
  lt x lo = false -> lt hi x = false -> clamp x lo hi = x.
Proof.
  intros Hx Hle H1 H2. rewrite clamp_cases by assumption.
  now rewrite H1, H2.
Qed.

(** X16.  Seeking through the slider is exact: on a mounted player whose
    snapshot has the element's finite duration, a target taken from the
    slider's range [0, max] is assigned to the element unchanged, and
    after the time-update notification the snapshot and the slider's value
    are that target. *)
Theorem seek_slider_round_trip (acts : list Action) (x : number) :
  videoRef (run initialWorld acts) = true ->
  Number_isFinite (Video.duration (video (run initialWorld acts))) = true ->
  duration (state (run initialWorld acts))
  = Video.duration (video (run initialWorld acts)) ->
  within (num 0) (TimeSlider_max (state (run initialWorld acts))) x = true ->
  Video.currentTime
    (video (run (run initialWorld acts) [SeekTo x; Notify timeupdate])) = x
  /\ current
       (state (run (run initialWorld acts) [SeekTo x; Notify timeupdate]))
     = x
  /\ TimeSlider_value
       (state (run (run initialWorld acts) [SeekTo x; Notify timeupdate]))
     = x.
Proof.
  intros Hm Hfin Hsync Hx.
  destruct (run_lifecycle_ok acts initialWorld initial_lifecycle_ok)
    as [Hr Hl].
  rewrite <- Hr, Hm in Hl.
  set (w := run initialWorld acts) in *.
  unfold TimeSlider_max in Hx. rewrite Hsync in Hx.
  rewrite (or_else_finite _ Hfin) in Hx.
  destruct (within_finite _ _ Hfin Hx) as (Fx & Nx & Lx & Ux).
  assert (Hle : le (num 0) (Video.duration (video w)) = true).
  { unfold le. destruct (Video.duration (video w)); try discriminate.
    cbn [isNaN negb andb]. apply negb_true_iff.
    destruct (lt (Fin q) (num 0)) eqn:E; [|reflexivity].
    destruct (lt_cotrans (Fin q) x (num 0) Nx E); congruence. }
  assert (W : run w [SeekTo x; Notify timeupdate]
              = call_listener onTimeUpdate
                  (on_video (Video.set_currentTime x) w)).
  { cbn [run fold_left]. unfold step, perform, modify.
    rewrite seekTo_attached by assumption. rewrite Nx, Hfin. cbn [snd].
    rewrite (clamp_inside x _ _ Nx Hle Lx Ux).
    now apply dispatchEvent_registered. }
  rewrite W.
  cbn [call_listener setState updater on_video video state
       set_state set_video current duration Video.currentTime
       Video.set_currentTime].
  rewrite (or_else_finite x Fx).
  repeat split.
  unfold TimeSlider_value. cbn [current duration].
  rewrite Hsync, (or_else_finite _ Hfin).
  unfold Math_min. rewrite Nx.
  destruct (isNaN (Video.duration (video w))) eqn:Nd;
    [destruct (Video.duration (video w)); discriminate|].
  cbn [orb]. now rewrite Ux.
Qed.

Lemma seek_slider_round_trip_witness :
  (videoRef (run initialWorld
     [Mount; Playback true (num 30) (num 120); Notify loadedmetadata])
   = true
   /\ within (num 0)
        (TimeSlider_max (state (run initialWorld
           [Mount; Playback true (num 30) (num 120); Notify loadedmetadata])))
        (ratio 905 10) = true)
  /\ TimeSlider_value
       (state (run (run initialWorld
          [Mount; Playback true (num 30) (num 120); Notify loadedmetadata])
          [SeekTo (ratio 905 10); Notify timeupdate]))
     = ratio 905 10.
Proof.
  split; [split; reflexivity|].
  exact (proj2 (proj2 (seek_slider_round_trip
           [Mount; Playback true (num 30) (num 120); Notify loadedmetadata]
           (ratio 905 10) eq_refl eq_refl eq_refl eq_refl))).
Defined.

(** X17.  The volume slider shows what the user chose: on a mounted
    player, for every value in the slider's range [0, 1] and whatever the
    mute flag was, [setVolume] followed by the volume-change notification
    leaves that value as the element's volume and as the value given to
    the slider. *)
Theorem volume_slider_round_trip (acts : list Action) (x : number) :
  videoRef (run initialWorld acts) = true ->
  within (num 0) (num 1) x = true ->
  Video.volume
    (video (run (run initialWorld acts) [SetVolume x; Notify volumechange]))
  = x
  /\ effectiveVolume
       (state (run (run initialWorld acts)
                 [SetVolume x; Notify volumechange])) = x.
Proof.
  intros Hm Hx.
  destruct (run_lifecycle_ok acts initialWorld initial_lifecycle_ok)
    as [Hr Hl].
  rewrite <- Hr, Hm in Hl.
  set (w := run initialWorld acts) in *.
  destruct (within_finite (num 1) x eq_refl Hx) as (Fx & Nx & Lx & Ux).
  assert (W : run w [SetVolume x; Notify volumechange]
              = call_listener onVolume
                  (let w1 := on_video (Video.set_volume x) w in
                   if gt x (num 0)
                   then on_video (Video.set_muted false) w1 else w1)).
  { cbn [run fold_left]. unfold step, perform, modify.
    rewrite setVolume_attached by assumption. rewrite Nx.
    cbv zeta. cbn [snd].
    rewrite (clamp_inside x _ _ Nx le_0_1 Lx Ux).
    apply dispatchEvent_registered. now destruct (gt x (num 0)). }
  rewrite W. cbv zeta.
  destruct (gt x (num 0)) eqn:G;
    cbn [call_listener setState updater on_video video state
         set_state set_video Video.volume Video.muted Video.set_volume
         Video.set_muted];
    unfold effectiveVolume; cbn [muted volume]; split; try reflexivity.
  assert (E : x = num 0) by (now apply lt_total).
  rewrite E. now destruct (Video.muted (video w)).
Qed.

Lemma volume_slider_round_trip_witness :
  (videoRef muted_half = true /\ muted (state muted_half) = true
   /\ within (num 0) (num 1) (ratio 35 100) = true)
  /\ effectiveVolume
       (state (run muted_half
                 [SetVolume (ratio 35 100); Notify volumechange]))
     = ratio 35 100.
Proof.
  split; [repeat split|].
  exact (proj2 (volume_slider_round_trip
           [ Mount; Playback true (num 30) (num 120); Notify loadedmetadata;
             Notify timeupdate; SetVolume (ratio 1 2); ToggleMute;
             Notify volumechange ]
           (ratio 35 100) eq_refl eq_refl)).
Defined.

(** ** What reaches the console and the platform *)

Lemma lifecycle_console_calls (a : Action) (w : World) :
  is_command a = false ->
  console (step w a) = console w /\ calls (step w a) = calls w.
Proof.
  intros C. destruct a; try discriminate.
  - change (step w Mount) with (mount w). unfold mount.
    destruct (effect (set_videoRef true w)) as [w' c] eqn:E.
    unfold effect, videoRef_current in E. cbn [videoRef set_videoRef] in E.
    cbv zeta in E. injection E as <- _. split; reflexivity.
  - change (step w Unmount) with (unmount w). unfold unmount.
    destruct (cleanup w); split; reflexivity.
  - change (step w (Notify e)) with (dispatchEvent e w).
    apply (dispatchEvent_ind
             (fun w' => console w' = console w /\ calls w' = calls w));
      [intros l w' H; exact H | split; reflexivity].
  - split; reflexivity.
Qed.

Lemma step_console_calls (a : Action) (w : World) :
  (granted a = true -> console (step w a) = console w)
  /\ (calls_platform a = false ->
      calls (step w a) = calls w /\ console (step w a) = console w)
  /\ (exists extra,
        calls (step w a) = (calls w ++ extra)%list
        /\ (List.length extra <= 1)%nat)
  /\ (exists extra,
        console (step w a) = (console w ++ extra)%list
        /\ (List.length extra <= 1)%nat).
Proof.
  assert (Nil : forall (A : Type) (l : list A),
             exists extra, l = (l ++ extra)%list
                           /\ (List.length extra <= 1)%nat).
  { intros A l. exists []. rewrite app_nil_r. split; [reflexivity|cbn; lia]. }
  assert (One : forall (A : Type) (l : list A) (x : A),
             exists extra, (l ++ [x])%list = (l ++ extra)%list
                           /\ (List.length extra <= 1)%nat).
  { intros A l x. exists [x]. split; [reflexivity|cbn; lia]. }
  destruct (is_command a) eqn:C.
  2:{ destruct (lifecycle_console_calls a w C) as [-> ->].
      repeat split; apply Nil. }
  destruct (videoRef w) eqn:H.
  2:{ unfold step. rewrite detached_noop by assumption. cbn [snd].
      repeat split; apply Nil. }
  destruct a; try discriminate; unfold step; cbn [perform].
  - rewrite togglePlay_attached by assumption.
    destruct (Video.paused (video w));
      [destruct (play_promise pf) eqn:E|];
      cbn [granted resolved snd]; rewrite ?E;
      repeat split; try discriminate; try apply Nil; apply One.
  - rewrite seekTo_attached by assumption.
    destruct (isNaN t); repeat split; apply Nil.
  - rewrite toggleMute_attached by assumption.
    repeat split; apply Nil.
  - rewrite setVolume_attached by assumption. cbv zeta.
    destruct (isNaN vol); [|destruct (gt _ _)]; repeat split; apply Nil.
  - rewrite fullscreen_attached by assumption.
    unfold fullscreen_promise, fullscreen_call. cbn [granted].
    destruct (fullscreenElement w);
      [destruct (exitFullscreen_promise pf) eqn:E
      |destruct (requestFullscreen_promise pf) eqn:E];
      cbn [resolved snd]; rewrite ?andb_false_r;
      repeat split; try discriminate; try apply Nil; apply One.
Qed.

(** X18.  Nothing is written to the console as long as the platform
    grants the requests: through any run in which every play and
    fullscreen request is resolved, the console is as it was. *)
Theorem console_silent_when_granted (acts : list Action) (w : World) :
  forallb granted acts = true -> console (run w acts) = console w.
Proof.
  revert w. induction acts as [|a acts IH]; intros w H; [reflexivity|].
  cbn [forallb] in H. apply andb_true_iff in H as [Ha H].
  cbn [run fold_left].
  change (fold_left step acts (step w a)) with (run (step w a) acts).
  rewrite IH by assumption.
  exact (proj1 (step_console_calls a w) Ha).
Qed.

Lemma console_silent_when_granted_witness :
  forallb granted
    [ Mount; TogglePlay (mkPlatform Resolved Resolved Resolved);
      Fullscreen (mkPlatform Resolved Resolved Resolved); SeekTo (num 5);
      Fullscreen (mkPlatform Resolved Resolved Resolved); Unmount ] = true
  /\ console (run initialWorld
       [ Mount; TogglePlay (mkPlatform Resolved Resolved Resolved);
         Fullscreen (mkPlatform Resolved Resolved Resolved); SeekTo (num 5);
         Fullscreen (mkPlatform Resolved Resolved Resolved); Unmount ])
     = console initialWorld.
Proof.
  split; [reflexivity|].
  apply (console_silent_when_granted
           [ Mount; TogglePlay (mkPlatform Resolved Resolved Resolved);
             Fullscreen (mkPlatform Resolved Resolved Resolved); SeekTo (num 5);
             Fullscreen (mkPlatform Resolved Resolved Resolved); Unmount ]
           initialWorld).
  reflexivity.
Defined.

(** X19.  The platform is called at most once for each [togglePlay] or
    [fullscreen] invocation and never by anything else (no retry, no call
    from [seekTo], [toggleMute], [setVolume], a notification or the
    lifecycle); the calls made earlier stay recorded in order. *)
Theorem platform_called_at_most_once (acts : list Action) (w : World) :
  exists extra : list Call,
    calls (run w acts) = (calls w ++ extra)%list
    /\ (List.length extra <= List.length (filter calls_platform acts))%nat.
Proof.
  revert w. induction acts as [|a acts IH]; intros w.
  - exists []. rewrite app_nil_r. split; [reflexivity | cbn; lia].
  - cbn [run fold_left].
    change (fold_left step acts (step w a)) with (run (step w a) acts).
    destruct (IH (step w a)) as (rest & E & L).
    destruct (step_console_calls a w) as (_ & Hnone & (one & E1 & L1) & _).
    cbn [filter]. destruct (calls_platform a) eqn:P.
    + exists (one ++ rest)%list. rewrite E, E1, app_assoc.
      split; [reflexivity|]. rewrite length_app. cbn [List.length]. lia.
    + destruct (Hnone eq_refl) as [E0 _]. exists rest.
      rewrite E, E0. now split.
Qed.

(** ** Worked examples *)

Example clamp_mid : clamp (ratio 8 10) (num 0) (num 1) = ratio 8 10.
Proof. reflexivity. Qed.

Example clamp_high : clamp (num 500) (num 0) (num 120) = num 120.
Proof. reflexivity. Qed.

Example clamp_infinite : clamp Infinity (num 0) (num 1) = num 1.
Proof. reflexivity. Qed.

Example formatTime_fraction : formatTime (ratio 1319 10) = Some "2:11".
Proof. reflexivity. Qed.

Example formatTime_pads : formatTime (num 65) = Some "1:05".
Proof. reflexivity. Qed.

(** The quotient is rounded to 53 bits: one tenth is not a binary64
    value, a quarter is. *)
Example binary64_tenth :
  div (num 1) (num 10) = ratio 3602879701896397 36028797018963968.
Proof. vm_compute. f_equal. now apply Qc_is_canon. Qed.

Example binary64_quarter : div (num 1) (num 4) = ratio 1 4.
Proof. vm_compute. f_equal. now apply Qc_is_canon. Qed.

Example binary64_overflow :
  binary64 (inject_Z (2 ^ 1024)) = Infinity.
Proof. vm_compute. reflexivity. Qed.

(** A number with a fractional part and an integer from [2^53] on have no
    string in the model. *)
Example ToString_outside :
  ToString (ratio 5 4) = None /\ ToString (num (2 ^ 53)) = None.
Proof. split; reflexivity. Qed.

Example padStart_long : padStart "123" 2 "0" = "123".
Proof. reflexivity. Qed.

Example padStart_cycles : padStart "7" 6 "ab" = "ababa7".
Proof. reflexivity. Qed.

(** The scenario of the specification: thirty seconds into a two-minute
    video the snapshot shows 30 / 120. *)
Example snapshot_30_of_120 :
  formatTime (current (state muted_half)) = Some "0:30"
  /\ formatTime (duration (state muted_half)) = Some "2:00".
Proof. split; reflexivity. Qed.

(** A play request that the platform accepts, followed by its
    notification, reaches the snapshot. *)
Example play_then_notify :
  playing (state (run muted_half
    [TogglePlay (mkPlatform Resolved Resolved Resolved); Notify play]))
  = true.
Proof. reflexivity. Qed.

